(** * Quizzer: the word store (DBHandler) and the socket gateway

    A shallow embedding of the two server-side files of the repository:
    the database handler (the quiz cache [quizSet], its version token and the
    write-through insertion of words) and the socket.io gateway (the
    per-connection event handlers and the start-up sequence).

    Conventions of the embedding.
    - A JavaScript string is the [string] of its UTF-16 code units, one
      character of the [string] for each unit; the units are those below
      256, that is the characters U+0000 to U+00FF.  On these the character
      classes of the regular expressions, [trim] and [toLowerCase] are
      JavaScript's own: U+00A0 is white space, and the letters U+00C0 to
      U+00DE have their lower case at U+00E0 to U+00FE.
    - A JavaScript object used as a dictionary is a [gmap string _]; reading
      a key falls back to [Object.prototype], see [js_get].
    - An [async] function is a state transformer that returns either a value
      (the promise resolves) or an exception (the promise rejects); the
      interleaving of several pending handlers is not modelled. *)

From Stdlib Require Import String Ascii List ZArith NArith Lia Bool.
From stdpp Require Import gmap strings list fin_maps.

Local Open Scope string_scope.

(** ** JavaScript primitives used by the two files *)
Module JS.

(** *** Characters and strings *)

Definition inRange (lo hi : N) (c : ascii) : bool :=
  let n := N_of_ascii c in (lo <=? n)%N && (n <=? hi)%N.

(** [\s] (and the characters removed by [trim]): TAB, LF, VT, FF, CR, the
    space and, above the ASCII range, the no-break space U+00A0. *)
Definition isWhiteSpace (c : ascii) : bool :=
  inRange 9 13 c || inRange 32 32 c || inRange 160 160 c.

Definition isUpper (c : ascii) : bool := inRange 65 90 c.
Definition isLower (c : ascii) : bool := inRange 97 122 c.
Definition isDigit (c : ascii) : bool := inRange 48 57 c.

(** [[A-Za-z0-9]] *)
Definition isAlphaNum (c : ascii) : bool :=
  isUpper c || isLower c || isDigit c.

(** The upper-case letters below U+0100: A to Z, and U+00C0 to U+00DE
    without the multiplication sign U+00D7.  Each has its lower case 32
    places further; no other character below U+0100 changes. *)
Definition hasLowerCase (c : ascii) : bool :=
  isUpper c || inRange 192 214 c || inRange 216 222 c.

Definition lowerChar (c : ascii) : ascii :=
  if hasLowerCase c then ascii_of_N (N_of_ascii c + 32) else c.

(** [s.toLowerCase()] *)
Fixpoint toLowerCase (s : string) : string :=
  match s with
  | EmptyString => EmptyString
  | String c rest => String (lowerChar c) (toLowerCase rest)
  end.

(** [s.trim()] *)
Fixpoint trimStart (s : string) : string :=
  match s with
  | EmptyString => EmptyString
  | String c rest => if isWhiteSpace c then trimStart rest else s
  end.

Fixpoint trimEnd (s : string) : string :=
  match s with
  | EmptyString => EmptyString
  | String c rest =>
      match trimEnd rest with
      | EmptyString => if isWhiteSpace c then EmptyString else String c EmptyString
      | t => String c t
      end
  end.

Definition trim (s : string) : string := trimEnd (trimStart s).

(** Whether a text begins with white space. *)
Definition headIsSpace (s : string) : bool :=
  match s with
  | EmptyString => false
  | String c _ => isWhiteSpace c
  end.

(** [s.replace(/(C(?=[^\s]+))/gi, '$& ')] for a one-character class [C]:
    every character of the class that is directly followed by a character
    that is not white space gets one space after it.  The look-ahead
    consumes nothing, so each position is decided on the original text. *)
Fixpoint spaceAfter (cls : ascii -> bool) (s : string) : string :=
  match s with
  | EmptyString => EmptyString
  | String c rest =>
      match rest with
      | EmptyString => String c EmptyString
      | String d _ =>
          if cls c && negb (isWhiteSpace d)
          then String c (String " " (spaceAfter cls rest))
          else String c (spaceAfter cls rest)
      end
  end.

(** Whether the pattern of [spaceAfter] matches somewhere in a text: a
    character of the class directly before one that is not white space. *)
Fixpoint tight (cls : ascii -> bool) (s : string) : bool :=
  match s with
  | EmptyString => false
  | String c rest =>
      match rest with
      | EmptyString => false
      | String d _ => (cls c && negb (isWhiteSpace d)) || tight cls rest
      end
  end.

(** [[^A-Za-z0-9\n\r\s]] *)
Definition meaningPunct (c : ascii) : bool :=
  negb (isAlphaNum c || isWhiteSpace c).

(** [[^A-Za-z0-9\n\r\s-]] *)
Definition wordPunct (c : ascii) : bool :=
  negb (isAlphaNum c || isWhiteSpace c || Ascii.eqb c "-").

(** JavaScript truthiness of a string. *)
Definition truthy (s : string) : bool :=
  match s with EmptyString => false | _ => true end.

(** *** Objects used as dictionaries *)

(** The property names every plain object inherits from
    [Object.prototype]. *)
Definition object_prototype_keys : list string :=
  [ "constructor"; "__defineGetter__"; "__defineSetter__"; "hasOwnProperty";
    "__lookupGetter__"; "__lookupSetter__"; "isPrototypeOf";
    "propertyIsEnumerable"; "toString"; "valueOf"; "__proto__";
    "toLocaleString" ].

Definition inherited (k : string) : bool :=
  existsb (String.eqb k) object_prototype_keys.

(** The outcome of [obj[k]]: an own property, a member of
    [Object.prototype] (a function or an object: never [null], never a
    string), or [undefined]. *)
Inductive slot (A : Type) : Type :=
| Own (a : A)
| Inherited
| Undefined.
Arguments Own {A} a.
Arguments Inherited {A}.
Arguments Undefined {A}.

Definition js_get {A : Type} (o : gmap string A) (k : string) : slot A :=
  match o !! k with
  | Some a => Own a
  | None => if inherited k then Inherited else Undefined
  end.

(** *** Regular expressions without captures, matched against a whole
    string (Brzozowski derivatives) *)

Inductive regex : Type :=
| Void
| Eps
| Chr (p : ascii -> bool)
| Cat (r1 r2 : regex)
| Alt (r1 r2 : regex)
| Star (r : regex).

Definition Plus (r : regex) : regex := Cat r (Star r).

Fixpoint nullable (r : regex) : bool :=
  match r with
  | Void => false
  | Eps => true
  | Chr _ => false
  | Cat r1 r2 => nullable r1 && nullable r2
  | Alt r1 r2 => nullable r1 || nullable r2
  | Star _ => true
  end.

Fixpoint deriv (c : ascii) (r : regex) : regex :=
  match r with
  | Void => Void
  | Eps => Void
  | Chr p => if p c then Eps else Void
  | Cat r1 r2 =>
      if nullable r1
      then Alt (Cat (deriv c r1) r2) (deriv c r2)
      else Cat (deriv c r1) r2
  | Alt r1 r2 => Alt (deriv c r1) (deriv c r2)
  | Star r1 => Cat (deriv c r1) (Star r1)
  end.

(** [^r$] against [s] *)
Fixpoint matches (r : regex) (s : string) : bool :=
  match s with
  | EmptyString => nullable r
  | String c rest => matches (deriv c r) rest
  end.

(** *** Values found in an event payload *)

(** [JOther] stands for a number or an object; it carries the text
    [String(v)] yields for it. *)
Inductive value : Type :=
| JUndefined
| JNull
| JBoolean (b : bool)
| JString (s : string)
| JOther (shown : string).

(** [typeof v === "string"] *)
Definition isString (v : value) : bool :=
  match v with JString _ => true | _ => false end.

(** [String(v)] *)
Definition String_ (v : value) : string :=
  match v with
  | JUndefined => "undefined"
  | JNull => "null"
  | JBoolean true => "true"
  | JBoolean false => "false"
  | JString s => s
  | JOther shown => shown
  end.

(** A payload object; a field that is absent reads as [undefined]. *)
Definition field (o : gmap string value) (k : string) : value :=
  default JUndefined (o !! k).

End JS.

(** ** private/DBHandler.js *)
Module DBHandler.
Import JS.

(** *** The document store *)

(** A record of a quiz collection. *)
Record WordDoc : Type := mkWordDoc {
  doc_word : string;
  doc_meaning : string
}.

(** [mailVerificationCredentials], frozen after it is built. *)
Record MVC : Type := mkMVC {
  jwtSecret : string;
  gmailAddress : string;
  GOOGLE_CLIENT_ID : string;
  GOOGLE_CLIENT_SECRET : string;
  GOOGLE_REDIRECT_URI : string;
  GOOGLE_REFRESH_TOKEN : string
}.

(** The record of ["_Root"] with [identifier: "initializer"]. *)
Record InitializerDoc : Type := mkInitializerDoc {
  init_credentials : MVC;
  init_quizSetVersion : string
}.

(** What the server holds of MongoDB: the word records of every
    collection, in the order [find()] yields them, the initializer record
    of ["_Root"], and the fate of the coming [updateOne] calls ([true]:
    the call rejects and writes nothing; an exhausted schedule means the
    calls succeed). *)
Record Mongo : Type := mkMongo {
  collections : gmap string (list WordDoc);
  initializer : option InitializerDoc;
  faults : list bool
}.

(** [updateOne({word}, {"$set": {word, meaning}}, {"upsert": true})] on
    the records of one collection: the first record of that word is
    rewritten; when there is none, a record is added. *)
Fixpoint upsert (word meaning : string) (docs : list WordDoc) : list WordDoc :=
  match docs with
  | [] => [mkWordDoc word meaning]
  | d :: rest =>
      if String.eqb (doc_word d) word
      then mkWordDoc word meaning :: rest
      else d :: upsert word meaning rest
  end.

(** [findOne({word})], projected on the meaning. *)
Fixpoint findOne (word : string) (docs : list WordDoc) : option string :=
  match docs with
  | [] => None
  | d :: rest =>
      if String.eqb (doc_word d) word then Some (doc_meaning d)
      else findOne word rest
  end.

(** The records of a collection; one that does not exist has none. *)
Definition documents (m : Mongo) (collectionName : string) : list WordDoc :=
  default [] (collections m !! collectionName).

(** A read of the store after the fact. *)
Definition storedMeaning (m : Mongo) (collectionName word : string) : option string :=
  findOne word (documents m collectionName).

(** *** The module's variables *)

(** A driver handle; it addresses the collection of the name it is kept
    under in [collectionSet]. *)
Inductive Collection : Type := Handle.

Inductive LogEntry : Type :=
| log_error (msg : string)
| log_info (msg : string).

Inductive exn : Type :=
| TypeError
| StoreError.

Record State : Type := mkState {
  mongo : Mongo;
  logger : list LogEntry;                       (* global["globalLoggerObject"], oldest first *)
  quizzerDatabase : bool;                       (* whether the Db handle is assigned *)
  collectionSet : gmap string Collection;
  quizSet : gmap string (gmap string string);
  quizSetVersion : string;
  mailVerificationCredentials : option MVC
}.

(** The variables as the module initialises them, over a given store. *)
Definition initial (m : Mongo) : State :=
  {| mongo := m; logger := []; quizzerDatabase := false;
     collectionSet := ∅; quizSet := ∅; quizSetVersion := "0.0.0";
     mailVerificationCredentials := None |}.

Definition set_mongo (f : Mongo -> Mongo) (st : State) : State :=
  {| mongo := f (mongo st); logger := logger st;
     quizzerDatabase := quizzerDatabase st;
     collectionSet := collectionSet st; quizSet := quizSet st;
     quizSetVersion := quizSetVersion st;
     mailVerificationCredentials := mailVerificationCredentials st |}.

Definition set_logger (f : list LogEntry -> list LogEntry) (st : State) : State :=
  {| mongo := mongo st; logger := f (logger st);
     quizzerDatabase := quizzerDatabase st;
     collectionSet := collectionSet st; quizSet := quizSet st;
     quizSetVersion := quizSetVersion st;
     mailVerificationCredentials := mailVerificationCredentials st |}.

Definition set_quizzerDatabase (b : bool) (st : State) : State :=
  {| mongo := mongo st; logger := logger st;
     quizzerDatabase := b;
     collectionSet := collectionSet st; quizSet := quizSet st;
     quizSetVersion := quizSetVersion st;
     mailVerificationCredentials := mailVerificationCredentials st |}.

Definition set_collectionSet
    (f : gmap string Collection -> gmap string Collection) (st : State) : State :=
  {| mongo := mongo st; logger := logger st;
     quizzerDatabase := quizzerDatabase st;
     collectionSet := f (collectionSet st); quizSet := quizSet st;
     quizSetVersion := quizSetVersion st;
     mailVerificationCredentials := mailVerificationCredentials st |}.

Definition set_quizSet
    (f : gmap string (gmap string string) -> gmap string (gmap string string))
    (st : State) : State :=
  {| mongo := mongo st; logger := logger st;
     quizzerDatabase := quizzerDatabase st;
     collectionSet := collectionSet st; quizSet := f (quizSet st);
     quizSetVersion := quizSetVersion st;
     mailVerificationCredentials := mailVerificationCredentials st |}.

Definition set_root (d : InitializerDoc) (st : State) : State :=
  {| mongo := mongo st; logger := logger st;
     quizzerDatabase := quizzerDatabase st;
     collectionSet := collectionSet st; quizSet := quizSet st;
     quizSetVersion := init_quizSetVersion d;
     mailVerificationCredentials := Some (init_credentials d) |}.

(** *** Asynchronous functions: state and rejection *)

Inductive result (A : Type) : Type :=
| Resolved (a : A)
| Rejected (e : exn).
Arguments Resolved {A} a.
Arguments Rejected {A} e.

Definition Async (A : Type) : Type := State -> result A * State.

Definition ret {A : Type} (a : A) : Async A := fun st => (Resolved a, st).

Definition throw {A : Type} (e : exn) : Async A := fun st => (Rejected e, st).

Definition bind {A B : Type} (m : Async A) (k : A -> Async B) : Async B :=
  fun st =>
    match m st with
    | (Resolved a, st') => k a st'
    | (Rejected e, st') => (Rejected e, st')
    end.

Definition gets {A : Type} (f : State -> A) : Async A :=
  fun st => (Resolved (f st), st).

Definition modify (f : State -> State) : Async unit :=
  fun st => (Resolved tt, f st).

Declare Scope async_scope.
Delimit Scope async_scope with async.
Notation "x <- m ;; k" := (bind m (fun x => k))
  (at level 100, m at next level, right associativity) : async_scope.
Notation "m ;;; k" := (bind m (fun _ => k))
  (at level 100, right associativity) : async_scope.
Local Open Scope async_scope.

(** *** Reading the cache *)

Definition getMVC (st : State) : option MVC := mailVerificationCredentials st.
Definition getQuizSetVersion (st : State) : string := quizSetVersion st.
Definition getQuizSet (st : State) : gmap string (gmap string string) := quizSet st.

(** [getQuizSet()[collectionName][word]] where it is a string of the
    cache. *)
Definition cachedMeaning (st : State) (collectionName word : string) : option string :=
  getQuizSet st !! collectionName ≫= (.!! word).

(** What line 93 of [insertNewWord] reads for a word: nothing in a
    collection that the call itself has just registered (line 90 gives it
    an empty dictionary), the cached meaning otherwise. *)
Definition existingMeaningOf (st : State) (collectionName word : string)
    : option string :=
  match js_get (collectionSet st) collectionName with
  | Undefined => None
  | _ => cachedMeaning st collectionName word
  end.

(** The variables after lines 88 to 91, when these do not throw. *)
Definition registered (collectionName : string) (st : State) : State :=
  match js_get (collectionSet st) collectionName with
  | Undefined =>
      set_quizSet (insert collectionName ∅)
        (set_collectionSet (insert collectionName Handle) st)
  | _ => st
  end.

(** Every cached collection has its handle: both dictionaries get a name
    together (lines 45 and 60, lines 89 and 90). *)
Definition consistent (st : State) : Prop :=
  forall collectionName : string,
    is_Some (quizSet st !! collectionName) ->
    is_Some (collectionSet st !! collectionName).

(** *** insertNewWord *)

(** The meaning [insertNewWord] returns and stores. *)
Record Inserted : Type := mkInserted {
  ins_collectionName : string;
  ins_word : string;
  ins_meaning : string
}.

(** [obj[k] = v] for a string [v]: the setter of [__proto__] ignores a
    primitive, every other key becomes an own property. *)
Definition js_set (k v : string) (o : gmap string string) : gmap string string :=
  if String.eqb k "__proto__" then o else <[k := v]> o.

(** Lines 94 to 96. *)
Definition mergeMeaning (existingMeaning : option string) (meaning : string) : string :=
  match existingMeaning with
  | Some e =>
      if truthy e && negb (String.eqb (toLowerCase e) (toLowerCase meaning))
      then e ++ " / " ++ meaning
      else meaning
  | None => meaning
  end.

(** Lines 99 and 100. *)
Definition normalizeMeaning (meaning : string) : string :=
  trim (spaceAfter meaningPunct meaning).
Definition normalizeWord (word : string) : string :=
  trim (spaceAfter wordPunct word).

Definition updateOne (collectionName word meaning : string) : Async unit :=
  fun st =>
    match faults (mongo st) with
    | true :: rest =>
        (Rejected StoreError,
         set_mongo (fun m => {| collections := collections m;
                                initializer := initializer m;
                                faults := rest |}) st)
    | fs =>
        (Resolved tt,
         set_mongo (fun m =>
           {| collections :=
                <[collectionName := upsert word meaning (documents m collectionName)]>
                  (collections m);
              initializer := initializer m;
              faults := tail fs |}) st)
    end.

(** Lines 88 to 91.  Without a connection [quizzerDatabase] is
    [undefined] and [quizzerDatabase.collection] throws. *)
Definition ensureCollection (collectionName : string) : Async unit :=
  known <- gets (fun st => js_get (collectionSet st) collectionName) ;;
  match known with
  | Undefined =>
      db <- gets quizzerDatabase ;;
      if (db : bool)
      then modify (fun st =>
             set_quizSet (insert collectionName ∅)
               (set_collectionSet (insert collectionName Handle) st))
      else throw TypeError
  | _ => ret tt
  end.

(** Lines 93 and 94: [quizSet[collectionName][word]], and the exception
    of [existingMeaning.toLowerCase()] when the value read is a member of
    [Object.prototype].  When [quizSet[collectionName]] itself is such a
    member the name was never registered, [collectionSet[collectionName]]
    is one too and has no [updateOne]: the call throws at line 102 at the
    latest, before any assignment. *)
Definition readExisting (collectionName word : string) : Async (option string) :=
  cached <- gets (fun st => js_get (quizSet st) collectionName) ;;
  match cached with
  | Own entries =>
      match js_get entries word with
      | Own m => ret (Some m)
      | Undefined => ret None
      | Inherited => throw TypeError
      end
  | _ => throw TypeError
  end.

Definition insertNewWord (collectionName word meaning : string) : Async Inserted :=
  ensureCollection collectionName ;;;
  existingMeaning <- readExisting collectionName word ;;
  let meaning := normalizeMeaning (mergeMeaning existingMeaning meaning) in
  let word := normalizeWord word in
  handle <- gets (fun st => js_get (collectionSet st) collectionName) ;;
  match handle with
  | Own _ => updateOne collectionName word meaning
  | _ => throw TypeError
  end ;;;
  modify (set_quizSet (alter (js_set word meaning) collectionName)) ;;;
  ret (mkInserted collectionName word meaning).

(** *** insertWordsFromFile *)

(** [for (let pair of wordMeaningArray) await insertNewWord(...)]: the
    loop body runs for the next pair only when the call before it has
    resolved; a rejection leaves the loop.  [wordMeaningArray] is what
    [getWordMeaningArray()] of FileToWordMeaningArray returns. *)
Fixpoint insertPairs (collectionName : string) (pairs : list WordDoc) : Async unit :=
  match pairs with
  | [] => ret tt
  | wm :: rest =>
      insertNewWord collectionName (doc_word wm) (doc_meaning wm) ;;;
      insertPairs collectionName rest
  end.

Definition insertWordsFromFile (getWordMeaningArray : list WordDoc)
    (collectionName : string) : Async unit :=
  let wordMeaningArray := getWordMeaningArray in
  insertPairs collectionName wordMeaningArray.

(** The same as a fold from the left over the pairs, each step running
    [insertNewWord] after what was accumulated. *)
Definition insertWordsFold (pairs : list WordDoc) (collectionName : string) : Async unit :=
  fold_left
    (fun acc wm =>
       acc ;;; insertNewWord collectionName (doc_word wm) (doc_meaning wm) ;;; ret tt)
    pairs (ret tt).

(** *** openDBConnection *)

Inductive ConnectOutcome : Type :=
| ConnectFailed (err : string)
| Connected.

(** Lines 61 to 63. *)
Definition loadDocuments (docs : list WordDoc) (entries : gmap string string)
    : gmap string string :=
  fold_left (fun acc d => js_set (doc_word d) (doc_meaning d) acc) docs entries.

(** One turn of the loop of lines 43 to 65.  A ["_Root"] without its
    initializer record makes [initializerDoc["jwtSecret"]] throw.  The
    store is taken to have no collection named [__proto__]: assigning an
    object under that key would replace the prototype of the dictionary. *)
Definition loadCollection (collectionName : string) : Async unit :=
  modify (set_collectionSet (insert collectionName Handle)) ;;;
  if String.eqb collectionName "_Root" then
    initializerDoc <- gets (fun st => initializer (mongo st)) ;;
    match initializerDoc with
    | Some d => modify (set_root d)
    | None => throw TypeError
    end
  else if negb (String.eqb collectionName "UserBase") then
    docs <- gets (fun st => documents (mongo st) collectionName) ;;
    modify (set_quizSet (insert collectionName (loadDocuments docs ∅)))
  else ret tt.

Fixpoint loadCollections (names : list string) : Async unit :=
  match names with
  | [] => ret tt
  | collectionName :: rest =>
      loadCollection collectionName ;;; loadCollections rest
  end.

(** [quizzerDatabase.listCollections().toArray()], names only. *)
Definition listCollections (m : Mongo) : list string :=
  (map_to_list (collections m)).*1.

(** [openDBConnection(callback)], for either outcome of
    [MongoClient.connect].  The callback works on the caller's own state
    [T] and on this module's (the exported functions, the global logger).
    An exception inside
    the [async] connect handler is an unhandled rejection: what follows
    it, the callback included, does not run (whether Node then ends the
    process depends on its version, and is not recorded).  The reads of
    the start-up are taken to succeed: [listCollections], [findOne] and
    [find] have no schedule of failures here. *)
Definition openDBConnection {T : Type} (callback : option (State -> T -> State * T))
    (outcome : ConnectOutcome) (st : State) (t : T) : State * T :=
  match outcome with
  | ConnectFailed err =>
      (set_logger (fun l => (l ++ [log_error "DB connection error..."; log_error err])%list) st, t)
  | Connected =>
      let st := set_quizzerDatabase true st in
      match loadCollections (listCollections (mongo st)) st with
      | (Resolved _, st') =>
          match callback with
          | Some k => k st' t
          | None => (st', t)
          end
      | (Rejected _, st') => (st', t)
      end
  end.

(** The variables once a connection to the store [m] is open and its
    collections are loaded, no callback given. *)
Definition opened (m : Mongo) : State :=
  fst (openDBConnection (T := unit) None Connected (initial m) tt).

(** Stores to run the functions on: an empty one whose writes succeed,
    an empty one whose next write is rejected, and one with a collection
    of two words, the root collection and the user collection. *)
Definition emptyStore : Mongo := mkMongo ∅ None [].
Definition failingStore : Mongo := mkMongo ∅ None [true].
Definition sampleStore : Mongo :=
  mkMongo
    (<["animals" := [mkWordDoc "cat" "neko"; mkWordDoc "dog" "inu"]]>
       (<["_Root" := []]> (<["UserBase" := []]> ∅)))
    (Some (mkInitializerDoc (mkMVC "s" "quiz@gmail.com" "id" "cs" "uri" "rt") "1.2.3"))
    [].

End DBHandler.

(** ** The gateway (the file that requires DBHandler and UserHandler) *)
Module Gateway.
Import JS DBHandler.

(** *** private/UserHandler.js, as an interface

    The user handler is not among the files embedded here.  Its functions
    are taken as they are called: each works on the handler's own state
    [U] (sessions and user records); the asynchronous ones resolve with a
    [{success, reason}] object or reject.  The user records these
    functions read and write in the store (through [getUserData] and
    [saveUserData]) are part of [U]; the interface gives them no access to
    the quiz cache, the version token and the word collections. *)

Record Reply : Type := mkReply {
  success : bool;
  reason : string
}.

Class UserHandler (U : Type) : Type := {
  initializeUserHandler : option MVC -> U -> U;
  hasAdminPrivileges : string -> U -> bool;
  logInUserFromSessionId : string -> string -> string -> U -> result Reply * U;
  logInUserFromPassword : string -> string -> string -> bool -> U -> result Reply * U;
  logOutUser : string -> U -> U;
  signUpNewUser : string -> string -> string -> U -> result Reply * U
}.

(** A small user handler to run the gateway on concrete inputs: a list
    of the connections with admin privileges, and a switch that makes the
    asynchronous calls reject. *)
Record Desk : Type := mkDesk {
  desk_admins : list string;
  desk_down : bool
}.

Definition deskCall (u : Desk) : result Reply * Desk :=
  if desk_down u then (Rejected StoreError, u)
  else (Resolved (mkReply true ""), u).

#[export] Instance deskHandler : UserHandler Desk := {|
  initializeUserHandler := fun _ u => u;
  hasAdminPrivileges := fun sid u => existsb (String.eqb sid) (desk_admins u);
  logInUserFromSessionId := fun _ _ _ u => deskCall u;
  logInUserFromPassword := fun _ _ _ _ u => deskCall u;
  logOutUser := fun _ u => u;
  signUpNewUser := fun _ _ _ u => deskCall u
|}.

(** *** validateUserMail *)

(** The negated class of the pattern: any character but the brackets
    and points [<>()[].,;:], the at sign, the double quote and [\s]. *)
Definition atomChar (c : ascii) : bool :=
  negb (existsb (Ascii.eqb c) (list_ascii_of_string "<>()[].,;:@")
        || Ascii.eqb c (ascii_of_N 34)
        || isWhiteSpace c).

(** [.]: every character but a line terminator *)
Definition dotChar (c : ascii) : bool :=
  negb (Ascii.eqb c (ascii_of_N 10) || Ascii.eqb c (ascii_of_N 13)).

Definition lit (a : ascii) : regex := Chr (Ascii.eqb a).

(** The pattern of line 103, between [^] and [$]. *)
Definition mailPattern : regex :=
  let atom := Plus (Chr atomChar) in
  let quoted := Cat (lit (ascii_of_N 34)) (Cat (Plus (Chr dotChar)) (lit (ascii_of_N 34))) in
  let localPart := Alt (Cat atom (Star (Cat (lit ".") atom))) quoted in
  let domain :=
    Cat (Plus (Cat atom (lit ".")))
        (Cat (Chr atomChar) (Cat (Chr atomChar) (Star (Chr atomChar)))) in
  Cat localPart (Cat (lit "@") domain).

(** [String(email).toLowerCase().match(...)[0]]: the pattern is anchored
    at both ends, so the match is the whole lower-cased text; without a
    match, [null[0]] throws ([None]). *)
Definition validateUserMail (email : value) : option string :=
  let text := toLowerCase (String_ email) in
  if matches mailPattern text then Some text else None.

(** *** The process *)

(** What is emitted to the socket of the handler. *)
Inductive Event : Type :=
| loginSuccess (r : Reply)
| adminPrivilegeGranted
| loginUnsuccessful (why : string)
| signupSuccess
| signupUnsuccessful (why : string)
| addWordSuccess (data : Inserted)
| addWordUnsuccessful (data : option (gmap string value))
| latestQuizSetVersion (version : string)
| latestQuizSet (version : string) (snapshot : gmap string (gmap string string)).

(** The variables of the gateway file: the user handler behind it,
    [activeUsers], whether the HTTP server listens ([httpServer.listen] was
    called and the process lives), what went to [console.log], and an
    exception no handler caught, on which Node ends the process. *)
Record Server (U : Type) : Type := mkServer {
  users : U;
  activeUsers : Z;
  listening : bool;
  console : list exn;
  uncaught : option exn
}.
Arguments mkServer {U}.
Arguments users {U}.
Arguments activeUsers {U}.
Arguments listening {U}.
Arguments console {U}.
Arguments uncaught {U}.

(** An event payload: [None] is [null] or [undefined], whose fields
    cannot be read; a primitive reads like an object without fields. *)
Definition Payload : Type := option (gmap string value).

Section Handlers.
Context {U : Type} `{UserHandler U}.

Definition Process : Type := State * Server U.

Definition boot (m : Mongo) (u : U) : Process :=
  (initial m, mkServer u 0 false [] None).

Definition set_users (u : U) (g : Server U) : Server U :=
  mkServer u (activeUsers g) (listening g) (console g) (uncaught g).

(** [socket.on('userLogin', ...)] *)
Definition userLogin (socketId : string) (credentials : Payload) (p : Process)
    : list Event * Process :=
  let '(st, g) := p in
  let invalid := ([loginUnsuccessful "Invalid UserMail"], p) in
  match credentials with
  | None => invalid
  | Some credentials =>
      match validateUserMail (field credentials "userMail") with
      | None => invalid
      | Some userMail =>
          let attempt :=
            match field credentials "sessionId" with
            | JString sessionId =>
                Some (logInUserFromSessionId socketId userMail sessionId (users g))
            | _ =>
                match field credentials "password" with
                | JString password =>
                    Some (logInUserFromPassword socketId userMail password
                            (match field credentials "rememberMe" with
                             | JBoolean true => true
                             | _ => false
                             end) (users g))
                | _ => None
                end
            end in
          match attempt with
          | None => invalid                      (* result is undefined *)
          | Some (Rejected _, u) =>
              ([loginUnsuccessful "Invalid UserMail"], (st, set_users u g))
          | Some (Resolved r, u) =>
              if success r
              then (loginSuccess r ::
                      (if hasAdminPrivileges socketId u
                       then [adminPrivilegeGranted] else []),
                    (st, set_users u g))
              else ([loginUnsuccessful (reason r)], (st, set_users u g))
          end
      end
  end.

(** [socket.on('userSignup', ...)] *)
Definition userSignup (credentials : Payload) (p : Process)
    : list Event * Process :=
  let '(st, g) := p in
  match credentials with
  | None => ([signupUnsuccessful "Invalid UserMail"], p)
  | Some credentials =>
      match validateUserMail (field credentials "userMail") with
      | None => ([signupUnsuccessful "Invalid UserMail"], p)
      | Some userMail =>
          match field credentials "password", field credentials "websiteURL" with
          | JString password, JString websiteURL =>
              match signUpNewUser websiteURL userMail password (users g) with
              | (Resolved r, u) =>
                  if success r
                  then ([signupSuccess], (st, set_users u g))
                  else ([signupUnsuccessful (reason r)], (st, set_users u g))
              | (Rejected err, u) =>             (* console.log(err) *)
                  ([], (st, mkServer u (activeUsers g) (listening g)
                              (console g ++ [err])%list (uncaught g)))
              end
          | _, _ => ([], p)
          end
      end
  end.

(** [socket.on('addNewWord', ...)] *)
Definition addNewWord (socketId : string) (data : Payload) (p : Process)
    : list Event * Process :=
  let '(st, g) := p in
  if hasAdminPrivileges socketId (users g) then
    match data with
    | None =>
        (* data["collectionName"] throws outside of any try: the exception
           is uncaught and ends the process, which listens no more *)
        ([], (st, mkServer (users g) (activeUsers g) false
                    (console g) (Some TypeError)))
    | Some fields =>
        match field fields "collectionName", field fields "word",
              field fields "meaning" with
        | JString collectionName, JString word, JString meaning =>
            match insertNewWord collectionName word meaning st with
            | (Resolved inserted, st') => ([addWordSuccess inserted], (st', g))
            | (Rejected _, st') => ([addWordUnsuccessful data], (st', g))
            end
        | _, _, _ => ([], p)
        end
    end
  else ([], p).

(** [socket.on('sendLatestQuizSetVersion', ...)] *)
Definition sendLatestQuizSetVersion (p : Process) : list Event * Process :=
  ([latestQuizSetVersion (getQuizSetVersion (fst p))], p).

(** [socket.on('sendQuizSet', ...)] *)
Definition sendQuizSet (p : Process) : list Event * Process :=
  ([latestQuizSet (getQuizSetVersion (fst p)) (getQuizSet (fst p))], p).

(** The callback handed to [openDBConnection] (lines 205 to 214); the
    two log lines carry a duration and the port, left out here. *)
Definition onOpen (st : State) (g : Server U) : State * Server U :=
  (set_logger (fun l => (l ++ [log_info "Initialization Complete";
                               log_info "Listening on port"])%list) st,
   mkServer (initializeUserHandler (getMVC st) (users g))
            (activeUsers g) true (console g) (uncaught g)).

(** Start-up: the last statement of the file. *)
Definition start (outcome : ConnectOutcome) (p : Process) : Process :=
  openDBConnection (Some onOpen) outcome (fst p) (snd p).

(** A client can connect, and so have its events handled, only once
    the HTTP server listens. *)
Definition serves (p : Process) : bool := listening (snd p).

End Handlers.

End Gateway.

(** ** What the text functions keep, and what a pattern accepts *)
Module TextSpec.
Import JS.

(** The characters of a text that are not white space, in their order. *)
Fixpoint visible (s : string) : string :=
  match s with
  | EmptyString => EmptyString
  | String c rest =>
      if isWhiteSpace c then visible rest else String c (visible rest)
  end.

(** Whether every character of a text satisfies a test. *)
Fixpoint allChars (p : ascii -> bool) (s : string) : bool :=
  match s with
  | EmptyString => true
  | String c rest => p c && allChars p rest
  end.

(** The texts a pattern stands for. *)
Inductive lang : regex -> string -> Prop :=
| lang_eps : lang Eps ""
| lang_chr (p : ascii -> bool) (c : ascii) :
    p c = true -> lang (Chr p) (String c "")
| lang_cat (r1 r2 : regex) (s1 s2 : string) :
    lang r1 s1 -> lang r2 s2 -> lang (Cat r1 r2) (s1 ++ s2)
| lang_alt_l (r1 r2 : regex) (s : string) :
    lang r1 s -> lang (Alt r1 r2) s
| lang_alt_r (r1 r2 : regex) (s : string) :
    lang r2 s -> lang (Alt r1 r2) s
| lang_star_nil (r : regex) : lang (Star r) ""
| lang_star_cons (r : regex) (s1 s2 : string) :
    lang r s1 -> lang (Star r) s2 -> lang (Star r) (s1 ++ s2).

End TextSpec.

(** ** private/DBHandler.js: the connection string, the user records *)
Module DBHandlerRest.
Import JS DBHandler.

(** *** mongoUrl (lines 15 and 16) *)

(** [s.replace(/[ ]+/g, "")]: every space is taken out. *)
Fixpoint removeSpaces (s : string) : string :=
  match s with
  | EmptyString => EmptyString
  | String c rest =>
      if Ascii.eqb c " " then removeSpaces rest else String c (removeSpaces rest)
  end.

(** A variable of [process.env] inside a concatenation: one that is not
    set reads as [undefined] and is spelled out. *)
Definition envText (env : gmap string string) (name : string) : string :=
  default "undefined" (env !! name).

(** The cluster name as it goes into the URL. *)
Definition clusterHost (cluster : string) : string :=
  toLowerCase (removeSpaces cluster).

(** [mongoUrl]; without [DBClusterName] the call of [replace] on
    [undefined] throws while the module loads ([None]). *)
Definition mongoUrl (env : gmap string string) : option string :=
  match env !! "DBClusterName" with
  | None => None
  | Some cluster =>
      Some ("mongodb+srv://" ++ envText env "DBUsername" ++ ":" ++
            envText env "DBPassword" ++ "@" ++
            clusterHost cluster ++ ".zm0r5.mongodb.net/" ++ envText env "DBName")
  end.

(** *** saveUserData and getUserData (lines 119 to 137) *)

(** The properties of a [UserDoc]; each may be absent.  [maxSessionTime]
    is a number of milliseconds. *)
Record UserFields : Type := mkUserFields {
  passwordHash : option string;
  isMailVerified : option bool;
  sessionIdHash : option string;
  maxSessionTime : option Z
}.

(** A record of ["UserBase"]. *)
Record UserRecord : Type := mkUserRecord {
  rec_userMail : string;
  rec_fields : UserFields
}.

(** ["$set": options] on the properties of a record: a property that
    [options] has is assigned, the others stay. *)
Definition assign (options old : UserFields) : UserFields :=
  {| passwordHash :=
       match passwordHash options with Some x => Some x | None => passwordHash old end;
     isMailVerified :=
       match isMailVerified options with Some x => Some x | None => isMailVerified old end;
     sessionIdHash :=
       match sessionIdHash options with Some x => Some x | None => sessionIdHash old end;
     maxSessionTime :=
       match maxSessionTime options with Some x => Some x | None => maxSessionTime old end |}.

(** [updateOne({userMail}, {"$set": options}, {"upsert": true})] with
    [options["userMail"] = userMail]: the first record of that address is
    updated; when there is none, a record with the address and the
    properties of [options] is added. *)
Fixpoint upsertUser (userMail : string) (options : UserFields)
    (docs : list UserRecord) : list UserRecord :=
  match docs with
  | [] => [mkUserRecord userMail options]
  | d :: rest =>
      if String.eqb (rec_userMail d) userMail
      then mkUserRecord userMail (assign options (rec_fields d)) :: rest
      else d :: upsertUser userMail options rest
  end.

(** [findOne({userMail})] *)
Fixpoint findUser (userMail : string) (docs : list UserRecord) : option UserRecord :=
  match docs with
  | [] => None
  | d :: rest =>
      if String.eqb (rec_userMail d) userMail then Some d
      else findUser userMail rest
  end.

(** The module's variables together with the records of ["UserBase"] and
    the fate of the coming [findOne] calls ([true]: the call rejects). *)
Record Db : Type := mkDb {
  vars : State;
  userBase : list UserRecord;
  readFaults : list bool
}.

(** [saveUserData(userMail, options)].  Without a handle under
    ["UserBase"], [collectionSet["UserBase"]] is [undefined] and the call of
    [updateOne] on it throws.  The write takes its fate from the same
    schedule as the writes of [insertNewWord]. *)
Definition saveUserData (userMail : string) (options : UserFields) (db : Db)
    : result unit * Db :=
  match js_get (collectionSet (vars db)) "UserBase" with
  | Own _ =>
      match faults (mongo (vars db)) with
      | true :: rest =>
          (Rejected StoreError,
           mkDb (set_mongo (fun m => mkMongo (collections m) (initializer m) rest) (vars db))
                (userBase db) (readFaults db))
      | fs =>
          (Resolved tt,
           mkDb (set_mongo (fun m => mkMongo (collections m) (initializer m) (tail fs))
                   (vars db))
                (upsertUser userMail options (userBase db)) (readFaults db))
      end
  | _ => (Rejected TypeError, db)
  end.

(** [getUserData(userMail)]: the record, or [null] ([None]). *)
Definition getUserData (userMail : string) (db : Db)
    : result (option UserRecord) * Db :=
  match js_get (collectionSet (vars db)) "UserBase" with
  | Own _ =>
      match readFaults db with
      | true :: rest => (Rejected StoreError, mkDb (vars db) (userBase db) rest)
      | fs =>
          (Resolved (findUser userMail (userBase db)),
           mkDb (vars db) (userBase db) (tail fs))
      end
  | _ => (Rejected TypeError, db)
  end.

(** *** The cache against the store *)

(** Every meaning the cache gives is the meaning the store gives for the
    same collection and word. *)
Definition mirrored (st : State) : Prop :=
  forall collectionName word meaning : string,
    cachedMeaning st collectionName word = Some meaning ->
    storedMeaning (mongo st) collectionName word = Some meaning.

(** The words of the records of a collection. *)
Definition words (docs : list WordDoc) : list string := map doc_word docs.

(** Whether [_Root], when the store has it, has its initializer record. *)
Definition rootReady (m : Mongo) : Prop :=
  is_Some (collections m !! "_Root") -> is_Some (initializer m).

End DBHandlerRest.

(** ** The gateway: connections and the sequence of events *)
Module Sockets.
Import JS DBHandler Gateway.

(** What a client can make the server handle, each with the socket it
    comes from. *)
Inductive Inbound : Type :=
| on_connection (socketId : string)
| on_userLogin (socketId : string) (credentials : Payload)
| on_userSignup (socketId : string) (credentials : Payload)
| on_addNewWord (socketId : string) (data : Payload)
| on_sendLatestQuizSetVersion (socketId : string)
| on_sendQuizSet (socketId : string)
| on_disconnect (socketId : string).

Section Dispatch.
Context {U : Type} `{UserHandler U}.

(** [io.on('connection', ...)], line 108. *)
Definition connection (p : @Process U) : @Process U :=
  (fst p,
   mkServer (users (snd p)) (activeUsers (snd p) + 1) (listening (snd p))
            (console (snd p)) (uncaught (snd p))).

(** [socket.on('disconnect', ...)] *)
Definition disconnect (socketId : string) (p : @Process U) : @Process U :=
  (fst p,
   mkServer (logOutUser socketId (users (snd p))) (activeUsers (snd p) - 1)
            (listening (snd p)) (console (snd p)) (uncaught (snd p))).

(** One event: the handler registered for it, and what it emits on the
    socket of the event. *)
Definition handle (e : Inbound) (p : @Process U) : list (string * Event) * @Process U :=
  let to (socketId : string) (out : list Event * @Process U) :=
    (map (pair socketId) (fst out), snd out) in
  match e with
  | on_connection _ => ([], connection p)
  | on_userLogin socketId credentials => to socketId (userLogin socketId credentials p)
  | on_userSignup socketId credentials => to socketId (userSignup credentials p)
  | on_addNewWord socketId data => to socketId (addNewWord socketId data p)
  | on_sendLatestQuizSetVersion socketId => to socketId (sendLatestQuizSetVersion p)
  | on_sendQuizSet socketId => to socketId (sendQuizSet p)
  | on_disconnect socketId => ([], disconnect socketId p)
  end.

(** The events one after the other.  An exception that no handler
    catches ends the process: what follows is not handled. *)
Fixpoint run (events : list Inbound) (p : @Process U) : list (string * Event) * @Process U :=
  match events with
  | [] => ([], p)
  | e :: rest =>
      match uncaught (snd p) with
      | Some _ => ([], p)
      | None =>
          let '(out, p1) := handle e p in
          let '(out', p2) := run rest p1 in
          ((out ++ out')%list, p2)
      end
  end.

(** How many connections a sequence of events opens, less those it
    closes. *)
Fixpoint balance (events : list Inbound) : Z :=
  match events with
  | [] => 0
  | on_connection _ :: rest => balance rest + 1
  | on_disconnect _ :: rest => balance rest - 1
  | _ :: rest => balance rest
  end.

End Dispatch.

End Sockets.

(** * Properties *)

(** ** Text: [trim] and the spacing of punctuation *)
Module TextFacts.
Import JS.

Lemma trimStart_head (s : string) : headIsSpace (trimStart s) = false.
Proof.
  induction s as [|c r IH]; simpl; [reflexivity|].
  destruct (isWhiteSpace c) eqn:E; [exact IH|].
  simpl. exact E.
Qed.

Lemma trimStart_id (s : string) : headIsSpace s = false -> trimStart s = s.
Proof. destruct s as [|c r]; simpl; [reflexivity|]. now intros ->. Qed.

Lemma trimEnd_head (s : string) :
  headIsSpace s = false -> headIsSpace (trimEnd s) = false.
Proof.
  destruct s as [|c r]; simpl; [reflexivity|]. intros E.
  destruct (trimEnd r); [rewrite E|]; simpl; auto.
Qed.

Lemma trimEnd_cons (c : ascii) (t : string) :
  t <> "" -> trimEnd t = t -> trimEnd (String c t) = String c t.
Proof. intros Hne Ht. simpl. rewrite Ht. now destruct t. Qed.

Lemma trimEnd_cons_inv (c : ascii) (r : string) :
  trimEnd (String c r) = String c r ->
  (r = "" /\ isWhiteSpace c = false) \/ (r <> "" /\ trimEnd r = r).
Proof.
  simpl. destruct (trimEnd r) as [|a t] eqn:E.
  - destruct (isWhiteSpace c) eqn:W; [discriminate|].
    intros [= <-]. now left.
  - intros [= <-]. right. split; [discriminate | congruence].
Qed.

Lemma trimEnd_idem (s : string) : trimEnd (trimEnd s) = trimEnd s.
Proof.
  induction s as [|c r IH]; simpl; [reflexivity|].
  destruct (trimEnd r) as [|a t] eqn:E.
  - destruct (isWhiteSpace c) eqn:W; simpl; [reflexivity|]. now rewrite W.
  - apply trimEnd_cons; [discriminate | exact IH].
Qed.

Lemma trim_idem (s : string) : trim (trim s) = trim s.
Proof.
  unfold trim.
  rewrite (trimStart_id (trimEnd (trimStart s))); [apply trimEnd_idem|].
  apply trimEnd_head, trimStart_head.
Qed.

Lemma append_cons (c : ascii) (x b : string) :
  String c x ++ b = String c (x ++ b).
Proof. reflexivity. Qed.

Lemma append_nil (b : string) : "" ++ b = b.
Proof. reflexivity. Qed.

Lemma append_assoc (a b c : string) : (a ++ b) ++ c = a ++ b ++ c.
Proof.
  induction a as [|x a IH]; [reflexivity|].
  now rewrite !append_cons, IH.
Qed.

Lemma trimEnd_app (x b : string) :
  b <> "" -> trimEnd b = b -> trimEnd (x ++ b) = x ++ b.
Proof.
  intros Hne Hb. induction x as [|c x IH]; [exact Hb|].
  rewrite append_cons. apply trimEnd_cons; [|exact IH].
  destruct x; [now rewrite append_nil | now rewrite append_cons].
Qed.

Lemma trimStart_app (a x : string) :
  a <> "" -> headIsSpace a = false -> trimStart (a ++ x) = a ++ x.
Proof.
  destruct a as [|c a]; [congruence|]. rewrite append_cons. simpl.
  now intros _ ->.
Qed.

Lemma spaceAfter_cons2 (cls : ascii -> bool) (c d : ascii) (r : string) :
  spaceAfter cls (String c (String d r)) =
  if cls c && negb (isWhiteSpace d)
  then String c (String " " (spaceAfter cls (String d r)))
  else String c (spaceAfter cls (String d r)).
Proof. reflexivity. Qed.

Lemma spaceAfter_head (cls : ascii -> bool) (s : string) :
  headIsSpace (spaceAfter cls s) = headIsSpace s.
Proof.
  destruct s as [|c [|d r]]; try reflexivity.
  rewrite spaceAfter_cons2. now destruct (cls c && negb (isWhiteSpace d)).
Qed.

Lemma spaceAfter_nonempty (cls : ascii -> bool) (s : string) :
  s <> "" -> spaceAfter cls s <> "".
Proof.
  destruct s as [|c [|d r]]; [congruence | discriminate |].
  intros _. rewrite spaceAfter_cons2.
  now destruct (cls c && negb (isWhiteSpace d)).
Qed.

Lemma spaceAfter_trimEnd (cls : ascii -> bool) (s : string) :
  trimEnd s = s -> trimEnd (spaceAfter cls s) = spaceAfter cls s.
Proof.
  induction s as [|c r IH]; [reflexivity|]. intros Hs.
  destruct (trimEnd_cons_inv _ _ Hs) as [[-> W]|[Hne Hr]].
  - simpl. now rewrite W.
  - destruct r as [|d r]; [congruence|].
    specialize (IH Hr).
    assert (Hn : spaceAfter cls (String d r) <> "")
      by (apply spaceAfter_nonempty; discriminate).
    rewrite spaceAfter_cons2.
    destruct (cls c && negb (isWhiteSpace d)).
    + apply trimEnd_cons; [discriminate|].
      apply trimEnd_cons; assumption.
    + apply trimEnd_cons; assumption.
Qed.

(** A text left unchanged by spacing and trimming is left unchanged by
    each of the two. *)
Lemma normal_parts (cls : ascii -> bool) (s : string) :
  trim (spaceAfter cls s) = s ->
  spaceAfter cls s = s /\ headIsSpace s = false /\ trimEnd s = s.
Proof.
  intros H.
  assert (Hh : headIsSpace s = false).
  { rewrite <- H. unfold trim. apply trimEnd_head, trimStart_head. }
  assert (He : trimEnd s = s).
  { rewrite <- H at 1. unfold trim. rewrite trimEnd_idem. exact H. }
  split; [|split; assumption].
  rewrite <- H at 2. unfold trim.
  rewrite trimStart_id by (now rewrite spaceAfter_head).
  symmetry. now apply spaceAfter_trimEnd.
Qed.

Lemma spaceAfter_app_ws (cls : ascii -> bool) (a : string) (c : ascii) (b : string) :
  isWhiteSpace c = true ->
  spaceAfter cls (a ++ String c b) = spaceAfter cls a ++ spaceAfter cls (String c b).
Proof.
  intros W. induction a as [|x a IH]; [reflexivity|].
  destruct a as [|y a].
  - rewrite append_cons, append_nil.
    rewrite spaceAfter_cons2, W, andb_false_r. reflexivity.
  - rewrite append_cons in *. rewrite (append_cons y) in *.
    rewrite !spaceAfter_cons2, IH.
    destruct (cls x && negb (isWhiteSpace y)); now rewrite !append_cons.
Qed.

(** The separator of merged meanings is stable under spacing. *)
Lemma spaceAfter_join (a b : string) :
  spaceAfter meaningPunct (a ++ " / " ++ b) =
  spaceAfter meaningPunct a ++ " / " ++ spaceAfter meaningPunct b.
Proof.
  change (" / " ++ b) with (String " " (String "/" (String " " b))).
  rewrite spaceAfter_app_ws by reflexivity.
  f_equal.
  rewrite !spaceAfter_cons2.
  destruct b as [|d r]; [reflexivity|].
  rewrite spaceAfter_cons2. reflexivity.
Qed.

Lemma tight_cons2 (cls : ascii -> bool) (c d : ascii) (r : string) :
  tight cls (String c (String d r)) =
  (cls c && negb (isWhiteSpace d)) || tight cls (String d r).
Proof. reflexivity. Qed.

Lemma spaceAfter_loose (cls : ascii -> bool) (s : string) :
  cls " "%char = false -> tight cls (spaceAfter cls s) = false.
Proof.
  intros Hsp. induction s as [|c r IH]; [reflexivity|].
  destruct r as [|d r]; [reflexivity|].
  rewrite spaceAfter_cons2.
  assert (Hd : exists t, spaceAfter cls (String d r) = String d t).
  { destruct r as [|e r]; [now eexists|]. rewrite spaceAfter_cons2.
    destruct (cls d && negb (isWhiteSpace e)); now eexists. }
  destruct Hd as [t Ht]. rewrite Ht in *.
  destruct (cls c && negb (isWhiteSpace d)) eqn:E.
  - rewrite !tight_cons2, Hsp, IH.
    change (isWhiteSpace " ") with true. now rewrite andb_false_r.
  - now rewrite tight_cons2, E, IH.
Qed.

Lemma tight_trimStart (cls : ascii -> bool) (s : string) :
  tight cls (trimStart s) = true -> tight cls s = true.
Proof.
  induction s as [|c r IH]; simpl; [auto|].
  destruct (isWhiteSpace c); [|auto].
  intros H. specialize (IH H).
  destruct r; [discriminate|]. rewrite IH. apply orb_true_r.
Qed.

Lemma trimEnd_first (c d : ascii) (r t : string) :
  trimEnd (String c r) = String d t -> d = c.
Proof.
  simpl. destruct (trimEnd r); [destruct (isWhiteSpace c)|]; congruence.
Qed.

Lemma tight_trimEnd (cls : ascii -> bool) (s : string) :
  tight cls (trimEnd s) = true -> tight cls s = true.
Proof.
  induction s as [|c r IH]; [auto|].
  cbn [trimEnd]. destruct (trimEnd r) as [|d t] eqn:E.
  - destruct (isWhiteSpace c); discriminate.
  - destruct r as [|d' r]; [discriminate|].
    pose proof (trimEnd_first _ _ _ _ E) as ->.
    rewrite !tight_cons2. intros H. apply orb_true_iff in H as [H|H].
    + now rewrite H.
    + rewrite (IH H). apply orb_true_r.
Qed.

(** A text that went through spacing and trimming has no place left
    where the pattern matches. *)
Lemma normal_loose (cls : ascii -> bool) (s : string) :
  cls " "%char = false -> tight cls (trim (spaceAfter cls s)) = false.
Proof.
  intros Hsp. destruct (tight cls (trim (spaceAfter cls s))) eqn:E; [|reflexivity].
  unfold trim in E. apply tight_trimEnd, tight_trimStart in E.
  now rewrite spaceAfter_loose in E.
Qed.

End TextFacts.

(** ** The word store *)
Module DBHandlerFacts.
Import JS DBHandler TextFacts.

(** *** The store *)

Lemma findOne_upsert (word meaning : string) (docs : list WordDoc) :
  findOne word (upsert word meaning docs) = Some meaning.
Proof.
  induction docs as [|d docs IH]; simpl.
  - now rewrite String.eqb_refl.
  - destruct (String.eqb (doc_word d) word) eqn:E; simpl.
    + now rewrite String.eqb_refl.
    + now rewrite E.
Qed.

Lemma upsert_idem (word meaning : string) (docs : list WordDoc) :
  upsert word meaning (upsert word meaning docs) = upsert word meaning docs.
Proof.
  induction docs as [|d docs IH]; simpl.
  - now rewrite String.eqb_refl.
  - destruct (String.eqb (doc_word d) word) eqn:E; simpl.
    + now rewrite String.eqb_refl.
    + now rewrite E, IH.
Qed.

Lemma documents_insert (m : Mongo) (c : string) (docs : list WordDoc)
      (ini : option InitializerDoc) (fs : list bool) :
  documents (mkMongo (<[c := docs]> (collections m)) ini fs) c = docs.
Proof. unfold documents. simpl. now rewrite lookup_insert_eq. Qed.

(** *** Normal forms *)

(** The word a call stores is never the key [__proto__]: line 105 always
    makes an own property. *)
Lemma normalizeWord_not_proto (word : string) :
  normalizeWord word <> "__proto__".
Proof.
  intros E.
  assert (H : tight wordPunct (normalizeWord word) = false)
    by (apply normal_loose; reflexivity).
  rewrite E in H. vm_compute in H. discriminate.
Qed.

Lemma js_set_normalizeWord (word meaning : string) (o : gmap string string) :
  js_set (normalizeWord word) meaning o = <[normalizeWord word := meaning]> o.
Proof.
  unfold js_set.
  destruct (String.eqb_spec (normalizeWord word) "__proto__") as [E|_];
    [now apply normalizeWord_not_proto in E | reflexivity].
Qed.

(** Normal forms are closed under the separator of merged meanings. *)
Lemma normalizeMeaning_join (a b : string) :
  normalizeMeaning a = a -> normalizeMeaning b = b -> a <> "" -> b <> "" ->
  normalizeMeaning (a ++ " / " ++ b) = a ++ " / " ++ b.
Proof.
  unfold normalizeMeaning. intros Ha Hb Na Nb.
  apply normal_parts in Ha as (Sa & Ha & _).
  apply normal_parts in Hb as (Sb & _ & Eb).
  rewrite spaceAfter_join, Sa, Sb. unfold trim.
  rewrite trimStart_app by assumption.
  rewrite <- append_assoc. now apply trimEnd_app.
Qed.

(** *** The steps of insertNewWord *)

(** Opens the operations of [Async] in the goal. *)
Ltac async := unfold bind, gets, modify, ret, throw.

Lemma ensureCollection_inv (c : string) (st st1 : State) (u : unit) :
  ensureCollection c st = (Resolved u, st1) -> st1 = registered c st.
Proof.
  unfold ensureCollection, registered. async.
  destruct (js_get (collectionSet st) c); try congruence.
  destruct (quizzerDatabase st); congruence.
Qed.

Lemma readExisting_inv (c w : string) (st st1 : State) (ex : option string) :
  readExisting c w st = (Resolved ex, st1) ->
  st1 = st /\ exists entries, quizSet st !! c = Some entries /\ ex = entries !! w.
Proof.
  unfold readExisting, js_get. async.
  destruct (quizSet st !! c) as [entries|]; [|destruct (inherited c); congruence].
  destruct (entries !! w) as [m|] eqn:E.
  - intros [= <- <-]. split; [reflexivity|]. exists entries. now rewrite E.
  - destruct (inherited w); [congruence|].
    intros [= <- <-]. split; [reflexivity|]. exists entries. now rewrite E.
Qed.

Lemma updateOne_inv (c w m : string) (st st1 : State) (u : unit) :
  updateOne c w m st = (Resolved u, st1) ->
  st1 = set_mongo (fun mg =>
          mkMongo (<[c := upsert w m (documents mg c)]> (collections mg))
                  (initializer mg) (tail (faults mg))) st.
Proof.
  unfold updateOne.
  destruct (faults (mongo st)) as [|[] fs] eqn:E; try congruence;
    intros [= _ <-]; unfold set_mongo; now rewrite E.
Qed.

Lemma existing_registered (c w : string) (st : State) (entries : gmap string string) :
  quizSet (registered c st) !! c = Some entries ->
  entries !! w = existingMeaningOf st c w.
Proof.
  unfold registered, existingMeaningOf, cachedMeaning, getQuizSet.
  destruct (js_get (collectionSet st) c); simpl.
  - now intros ->.
  - now intros ->.
  - rewrite lookup_insert_eq. now intros [= <-].
Qed.

(** What a call that resolves has done. *)
Lemma insertNewWord_inv (c w m : string) (st st' : State) (r : Inserted) :
  insertNewWord c w m st = (Resolved r, st') ->
  let w' := normalizeWord w in
  let m' := normalizeMeaning (mergeMeaning (existingMeaningOf st c w) m) in
  exists entries : gmap string string,
    quizSet (registered c st) !! c = Some entries /\
    r = mkInserted c w' m' /\
    quizSet st' = <[c := <[w' := m']> entries]> (quizSet (registered c st)) /\
    collectionSet st' = collectionSet (registered c st) /\
    collectionSet st' !! c = Some Handle /\
    collections (mongo st') =
      <[c := upsert w' m' (documents (mongo st) c)]> (collections (mongo st)).
Proof.
  unfold insertNewWord, bind.
  destruct (ensureCollection c st) as [[u|e] st1] eqn:He; [|congruence].
  apply ensureCollection_inv in He. subst st1.
  destruct (readExisting c w (registered c st)) as [[ex|e] st2] eqn:Hr; [|congruence].
  apply readExisting_inv in Hr as (-> & entries & Hq & ->).
  rewrite (existing_registered _ _ _ _ Hq).
  unfold gets at 1.
  destruct (js_get (collectionSet (registered c st)) c) as [h| |] eqn:Hh;
    try (unfold throw; congruence).
  destruct (updateOne c _ _ (registered c st)) as [[u'|e] st3] eqn:Hu; [|congruence].
  apply updateOne_inv in Hu. subst st3.
  unfold modify, ret. intros [= <- <-]. cbn zeta.
  exists entries. split; [exact Hq|]. split; [reflexivity|].
  assert (Hc : collectionSet (registered c st) !! c = Some Handle).
  { unfold js_get in Hh. destruct (collectionSet (registered c st) !! c) as [[]|];
      [reflexivity | destruct (inherited c); congruence]. }
  assert (Hm : mongo (registered c st) = mongo st).
  { unfold registered. now destruct (js_get (collectionSet st) c). }
  simpl. rewrite Hm. repeat split; try assumption.
  apply map_eq. intros k. rewrite lookup_alter.
  destruct (decide (c = k)) as [<-|Hne].
  - rewrite Hq, lookup_insert_eq. simpl. now rewrite js_set_normalizeWord.
  - now rewrite lookup_insert_ne.
Qed.

(** After a call that resolves, the cache, the store and the next read
    of line 93 agree on the meaning under the normalized word. *)
Lemma insertNewWord_post (c w m : string) (st st' : State) (r : Inserted) :
  insertNewWord c w m st = (Resolved r, st') ->
  r = mkInserted c (normalizeWord w)
        (normalizeMeaning (mergeMeaning (existingMeaningOf st c w) m)) /\
  cachedMeaning st' c (normalizeWord w) = Some (ins_meaning r) /\
  storedMeaning (mongo st') c (normalizeWord w) = Some (ins_meaning r) /\
  existingMeaningOf st' c (normalizeWord w) = Some (ins_meaning r).
Proof.
  intros H. apply insertNewWord_inv in H as (entries & Hq & -> & HQ & _ & Hc & Hm).
  cbn [ins_meaning].
  assert (Hcache : cachedMeaning st' c (normalizeWord w) =
            Some (normalizeMeaning (mergeMeaning (existingMeaningOf st c w) m))).
  { unfold cachedMeaning, getQuizSet. rewrite HQ, lookup_insert_eq. simpl.
    apply lookup_insert_eq. }
  repeat split.
  - exact Hcache.
  - unfold storedMeaning, documents. rewrite Hm, lookup_insert_eq. simpl.
    apply findOne_upsert.
  - unfold existingMeaningOf, js_get. now rewrite Hc.
Qed.

(** A rejection by the store comes from [updateOne] alone, after lines
    88 to 91 and before line 105. *)
Lemma insertNewWord_store_error (c w m : string) (st st' : State) :
  insertNewWord c w m st = (Rejected StoreError, st') ->
  quizSet st' = quizSet (registered c st) /\
  collectionSet st' = collectionSet (registered c st) /\
  collections (mongo st') = collections (mongo st).
Proof.
  unfold insertNewWord, bind.
  destruct (ensureCollection c st) as [[u|e] st1] eqn:He.
  - apply ensureCollection_inv in He. subst st1.
    destruct (readExisting c w (registered c st)) as [[ex|e] st2] eqn:Hr.
    + apply readExisting_inv in Hr as (-> & _).
      unfold gets at 1.
      destruct (js_get (collectionSet (registered c st)) c);
        try (unfold throw; congruence).
      unfold updateOne, modify, ret.
      assert (Hm : mongo (registered c st) = mongo st).
      { unfold registered. now destruct (js_get (collectionSet st) c). }
      destruct (faults (mongo (registered c st))) as [|[] fs];
        try congruence.
      intros [= <-]. simpl. now rewrite Hm.
    + revert Hr. unfold readExisting, bind, gets, ret, throw.
      destruct (js_get (quizSet (registered c st)) c) as [entries| |];
        try congruence.
      destruct (js_get entries w); congruence.
  - revert He. unfold ensureCollection, bind, gets, modify, ret, throw.
    destruct (js_get (collectionSet st) c); try congruence.
    destruct (quizzerDatabase st); congruence.
Qed.

Lemma consistent_absent (c : string) (st : State) :
  consistent st -> js_get (collectionSet st) c = Undefined ->
  quizSet st !! c = None.
Proof.
  intros Hc Hu. destruct (quizSet st !! c) as [entries|] eqn:E; [|reflexivity].
  destruct (Hc c) as [h Hh]; [exists entries; exact E|].
  unfold js_get in Hu. now rewrite Hh in Hu.
Qed.

Lemma consistent_initial (m : Mongo) : consistent (initial m).
Proof. intros c [x Hx]. simpl in Hx. now rewrite lookup_empty in Hx. Qed.

(** [consistent] is kept by every function that assigns to the two
    dictionaries. *)
Lemma consistent_intro (st st' : State) :
  consistent st ->
  (forall k, is_Some (collectionSet st !! k) -> is_Some (collectionSet st' !! k)) ->
  (forall k, is_Some (quizSet st' !! k) ->
             is_Some (quizSet st !! k) \/ is_Some (collectionSet st' !! k)) ->
  consistent st'.
Proof.
  intros Hc Hh Hq k Hk. destruct (Hq k Hk) as [H|H]; [|exact H].
  apply Hh, Hc, H.
Qed.

Lemma consistent_registered (c : string) (st : State) :
  consistent st -> consistent (registered c st).
Proof.
  intros Hc. unfold registered.
  destruct (js_get (collectionSet st) c); try exact Hc.
  apply (consistent_intro st); [exact Hc| |]; intros k; simpl;
    (destruct (decide (c = k)) as [<-|N];
     [rewrite !lookup_insert_eq | rewrite !lookup_insert_ne by exact N]); eauto.
Qed.

Lemma insertNewWord_dictionaries (c w m : string) (st : State) :
  (collectionSet (snd (insertNewWord c w m st)) = collectionSet st /\
   quizSet (snd (insertNewWord c w m st)) = quizSet st) \/
  (collectionSet (snd (insertNewWord c w m st)) = collectionSet (registered c st) /\
   (quizSet (snd (insertNewWord c w m st)) = quizSet (registered c st) \/
    exists f, quizSet (snd (insertNewWord c w m st)) =
              alter f c (quizSet (registered c st)))).
Proof.
  unfold insertNewWord, ensureCollection, readExisting, updateOne, registered.
  async. repeat case_match; simplify_eq/=; eauto 6.
Qed.

Lemma consistent_insertNewWord (c w m : string) (st : State) :
  consistent st -> consistent (snd (insertNewWord c w m st)).
Proof.
  intros Hc. pose proof (consistent_registered c st Hc) as Hr.
  destruct (insertNewWord_dictionaries c w m st) as [[Hh Hq]|[Hh [Hq|[f Hq]]]];
    intros k; rewrite Hh, Hq; try apply Hc; try apply Hr.
  rewrite lookup_alter. destruct (decide (c = k)) as [<-|N]; [|apply Hr].
  rewrite fmap_is_Some. apply Hr.
Qed.

Lemma consistent_loadCollection (name : string) (st : State) :
  consistent st -> consistent (snd (loadCollection name st)).
Proof.
  intros Hc. apply (consistent_intro st); [exact Hc| |];
    unfold loadCollection; async; intros k;
    repeat case_match; simplify_eq/=;
    (destruct (decide (name = k)) as [<-|N];
     [rewrite ?lookup_insert_eq | rewrite ?lookup_insert_ne by exact N]); eauto.
Qed.

Lemma consistent_loadCollections (names : list string) (st : State) :
  consistent st -> consistent (snd (loadCollections names st)).
Proof.
  revert st. induction names as [|name rest IH]; intros st Hc; [exact Hc|].
  cbn [loadCollections]. unfold bind.
  pose proof (consistent_loadCollection name st Hc) as H1.
  destruct (loadCollection name st) as [[u|e] st1]; simpl in H1 |- *;
    [now apply IH | exact H1].
Qed.

(** The states a server goes through are consistent: the one after the
    connection is, and [insertNewWord] keeps it so. *)
Lemma consistent_opened (m : Mongo) : consistent (opened m).
Proof.
  unfold opened, openDBConnection.
  pose proof (consistent_loadCollections
                (listCollections (mongo (set_quizzerDatabase true (initial m))))
                (set_quizzerDatabase true (initial m))) as H.
  destruct (loadCollections _ _) as [[u|e] st']; apply H, consistent_initial.
Qed.

Lemma ensureCollection_resolves (c : string) (st : State) :
  inherited c = false ->
  (collectionSet st !! c = None -> quizzerDatabase st = true) ->
  ensureCollection c st = (Resolved tt, registered c st).
Proof.
  intros Ic Hdb. unfold ensureCollection, registered, js_get. async.
  destruct (collectionSet st !! c) as [h|]; [reflexivity|].
  now rewrite Ic, Hdb.
Qed.

Lemma readExisting_resolves (c w : string) (st : State) (entries : gmap string string) :
  inherited w = false -> quizSet st !! c = Some entries ->
  readExisting c w st = (Resolved (entries !! w), st).
Proof.
  intros Iw He. unfold readExisting, js_get. async. rewrite He.
  destruct (entries !! w); [reflexivity | now rewrite Iw].
Qed.

Lemma updateOne_resolves (c w m : string) (st : State) :
  head (faults (mongo st)) <> Some true ->
  exists st', updateOne c w m st = (Resolved tt, st').
Proof.
  unfold updateOne. destruct (faults (mongo st)) as [|[] fs]; simpl;
    [eauto | congruence | eauto].
Qed.

(** A call resolves when the names are not members of [Object.prototype],
    the collection is either new (and the connection open) or cached, and
    the store takes the write. *)
Lemma insertNewWord_resolves (c w m : string) (st : State) :
  inherited c = false -> inherited w = false ->
  (collectionSet st !! c = None -> quizzerDatabase st = true) ->
  (is_Some (collectionSet st !! c) -> is_Some (quizSet st !! c)) ->
  head (faults (mongo st)) <> Some true ->
  exists r st', insertNewWord c w m st = (Resolved r, st').
Proof.
  intros Ic Iw Hdb Hq Hf.
  assert (Hreg : exists entries,
             quizSet (registered c st) !! c = Some entries /\
             collectionSet (registered c st) !! c = Some Handle /\
             mongo (registered c st) = mongo st).
  { unfold registered, js_get.
    destruct (collectionSet st !! c) as [[]|] eqn:Hc.
    - destruct Hq as [entries He]; [now eexists|]. eauto.
    - rewrite Ic. simpl. rewrite !lookup_insert_eq. eauto. }
  destruct Hreg as (entries & He & Hh & Hm).
  unfold insertNewWord, bind.
  rewrite (ensureCollection_resolves c st Ic Hdb).
  rewrite (readExisting_resolves c w _ entries Iw He).
  unfold gets at 1, js_get. rewrite Hh.
  destruct (updateOne_resolves c (normalizeWord w)
              (normalizeMeaning (mergeMeaning (entries !! w) m)) (registered c st))
    as [st' ->]; [now rewrite Hm|].
  unfold modify, ret. eauto.
Qed.

End DBHandlerFacts.

(** ** insertNewWord and insertWordsFromFile: the statements *)
Module WordStore.
Import JS DBHandler TextFacts DBHandlerFacts.

(** *** Write-through *)




(** *** A write the store rejects *)

(** C2 (as amended).  When the store rejects the write of a call, no
    word of the cache gets a meaning or changes its meaning, and the store
    keeps its records; the cache is the one of before the call, except
    that a collection the call met for the first time has got its empty
    entry (line 90 runs before the write). *)
Theorem insertNewWord_rejected_write
    (c w m : string) (st st' : State) :
  consistent st ->
  insertNewWord c w m st = (Rejected StoreError, st') ->
  (forall c' w' : string, cachedMeaning st' c' w' = cachedMeaning st c' w') /\
  quizSet st' =
    match js_get (collectionSet st) c with
    | Undefined => <[c := ∅]> (quizSet st)
    | _ => quizSet st
    end /\
  collections (mongo st') = collections (mongo st).
Proof.
  intros Hcons H. apply insertNewWord_store_error in H as (HQ & _ & Hm).
  assert (HQ' : quizSet st' =
            match js_get (collectionSet st) c with
            | Undefined => <[c := ∅]> (quizSet st)
            | _ => quizSet st
            end).
  { rewrite HQ. unfold registered. now destruct (js_get (collectionSet st) c). }
  split; [|split; assumption].
  intros c' w'. unfold cachedMeaning, getQuizSet. rewrite HQ'.
  destruct (js_get (collectionSet st) c) eqn:E; try reflexivity.
  destruct (decide (c = c')) as [<-|Hne].
  - rewrite lookup_insert_eq, (consistent_absent c st Hcons E). simpl.
    apply lookup_empty.
  - now rewrite lookup_insert_ne.
Qed.

Lemma insertNewWord_rejected_write_witness :
  consistent (opened failingStore) /\
  insertNewWord "animals" "cat" "neko" (opened failingStore) =
    (Rejected StoreError,
     snd (insertNewWord "animals" "cat" "neko" (opened failingStore))) /\
  collections (mongo (snd (insertNewWord "animals" "cat" "neko" (opened failingStore)))) =
    collections (mongo (opened failingStore)).
Proof.
  split; [apply consistent_opened|].
  split; [vm_compute; reflexivity|].
  apply (insertNewWord_rejected_write "animals" "cat" "neko" (opened failingStore)).
  - apply consistent_opened.
  - vm_compute. reflexivity.
Defined.

(** C2 as stated fails for a collection the cache does not know yet.
    On an empty store whose next write is rejected,
    [insertNewWord("animals", "cat", "neko")] rejects, and the cache, empty
    before, has an entry for ["animals"]. *)
Lemma insertNewWord_rejected_write_creates_collection :
  fst (insertNewWord "animals" "cat" "neko" (opened failingStore)) =
    Rejected StoreError /\
  quizSet (opened failingStore) !! "animals" = None /\
  quizSet (snd (insertNewWord "animals" "cat" "neko" (opened failingStore)))
    !! "animals" = Some ∅ /\
  quizSet (snd (insertNewWord "animals" "cat" "neko" (opened failingStore))) <>
    quizSet (opened failingStore).
Proof.
  split; [vm_compute; reflexivity|].
  split; [vm_compute; reflexivity|].
  split; [vm_compute; reflexivity|].
  intros E.
  assert (H : quizSet (snd (insertNewWord "animals" "cat" "neko" (opened failingStore)))
                !! "animals" = quizSet (opened failingStore) !! "animals")
    by now rewrite E.
  vm_compute in H. discriminate.
Qed.

(** *** Merging *)

Lemma mergeMeaning_distinct (e m : string) :
  e <> "" -> toLowerCase m <> toLowerCase e ->
  mergeMeaning (Some e) m = e ++ " / " ++ m.
Proof.
  intros He Hd. unfold mergeMeaning.
  destruct e as [|x e]; [congruence|]. cbn [truthy andb].
  destruct (String.eqb_spec (toLowerCase (String x e)) (toLowerCase m)) as [E|_];
    [now rewrite E in Hd | reflexivity].
Qed.

Lemma join_nonempty (a b : string) : a <> "" -> a ++ b <> "".
Proof. destruct a; [congruence|]. now rewrite append_cons. Qed.

(** C3 (as amended).  Take a word that normalization leaves unchanged
    and that has no meaning yet when line 93 reads it, and three non-empty
    meanings [M1], [M2], [M3] that normalization leaves unchanged.  When
    the three calls resolve, inserting [M1] and then [M2], not equal to
    [M1] up to letter case, leaves [M1 / M2] in the cache and in the
    store; inserting then [M3], not equal to [M1 / M2] up to letter case,
    leaves [M1 / M2 / M3]. *)
Theorem insertNewWord_accumulates
    (c w M1 M2 M3 : string) (st st1 st2 st3 : State) (r1 r2 r3 : Inserted) :
  normalizeWord w = w ->
  existingMeaningOf st c w = None ->
  normalizeMeaning M1 = M1 -> normalizeMeaning M2 = M2 -> normalizeMeaning M3 = M3 ->
  M1 <> "" -> M2 <> "" -> M3 <> "" ->
  toLowerCase M2 <> toLowerCase M1 ->
  toLowerCase M3 <> toLowerCase (M1 ++ " / " ++ M2) ->
  insertNewWord c w M1 st = (Resolved r1, st1) ->
  insertNewWord c w M2 st1 = (Resolved r2, st2) ->
  insertNewWord c w M3 st2 = (Resolved r3, st3) ->
  (cachedMeaning st2 c w = Some (M1 ++ " / " ++ M2) /\
   storedMeaning (mongo st2) c w = Some (M1 ++ " / " ++ M2)) /\
  (cachedMeaning st3 c w = Some (M1 ++ " / " ++ M2 ++ " / " ++ M3) /\
   storedMeaning (mongo st3) c w = Some (M1 ++ " / " ++ M2 ++ " / " ++ M3)).
Proof.
  intros Hw H0 N1 N2 N3 E1 E2 E3 D2 D3 C1 C2 C3.
  apply insertNewWord_post in C1 as (-> & _ & _ & X1).
  rewrite Hw, H0 in X1. cbn [ins_meaning mergeMeaning] in X1. rewrite N1 in X1.
  apply insertNewWord_post in C2 as (-> & K2 & S2 & X2).
  rewrite Hw in K2, S2, X2. rewrite X1 in K2, S2, X2.
  cbn [ins_meaning] in K2, S2, X2.
  rewrite (mergeMeaning_distinct M1 M2 E1 D2) in K2, S2, X2.
  rewrite (normalizeMeaning_join M1 M2 N1 N2 E1 E2) in K2, S2, X2.
  split; [split; assumption|].
  apply insertNewWord_post in C3 as (-> & K3 & S3 & _).
  rewrite Hw in K3, S3. rewrite X2 in K3, S3. cbn [ins_meaning] in K3, S3.
  assert (E12 : M1 ++ " / " ++ M2 <> "") by now apply join_nonempty.
  rewrite (mergeMeaning_distinct _ M3 E12 D3) in K3, S3.
  rewrite (normalizeMeaning_join _ M3
             (normalizeMeaning_join M1 M2 N1 N2 E1 E2) N3 E12 E3) in K3, S3.
  rewrite append_assoc in K3, S3. split; assumption.
Qed.

Lemma insertNewWord_accumulates_witness :
  cachedMeaning
    (snd (insertNewWord "animals" "crane" "a machine"
       (snd (insertNewWord "animals" "crane" "to stretch"
          (snd (insertNewWord "animals" "crane" "a bird" (opened emptyStore)))))))
    "animals" "crane" = Some ("a bird" ++ " / " ++ "to stretch" ++ " / " ++ "a machine").
Proof.
  pose (st := opened emptyStore).
  pose (o1 := insertNewWord "animals" "crane" "a bird" st).
  pose (o2 := insertNewWord "animals" "crane" "to stretch" (snd o1)).
  pose (o3 := insertNewWord "animals" "crane" "a machine" (snd o2)).
  apply (insertNewWord_accumulates "animals" "crane" "a bird" "to stretch" "a machine"
           st (snd o1) (snd o2) (snd o3)
           (mkInserted "animals" "crane" "a bird")
           (mkInserted "animals" "crane" "a bird / to stretch")
           (mkInserted "animals" "crane" "a bird / to stretch / a machine"));
    try (vm_compute; reflexivity); try (vm_compute; discriminate).
Defined.

(** C3 as stated fails for a meaning that normalization changes, and for
    a third meaning that differs from the first two but not from their
    merge.  On an empty store, inserting ["a,b"] and then ["c"] for the word
    ["cat"] leaves ["a, b / c"], which is not ["a,b / c"]; inserting ["a"],
    ["b"] and then ["a / b"] for the word ["dog"] leaves ["a / b"], not
    ["a / b / a / b"]. *)
Lemma insertNewWord_accumulates_normalized :
  (fst (insertNewWord "animals" "cat" "c"
          (snd (insertNewWord "animals" "cat" "a,b" (opened emptyStore)))) =
     Resolved (mkInserted "animals" "cat" "a, b / c") /\
   cachedMeaning
     (snd (insertNewWord "animals" "cat" "c"
        (snd (insertNewWord "animals" "cat" "a,b" (opened emptyStore)))))
     "animals" "cat" <> Some ("a,b" ++ " / " ++ "c")) /\
  (fst (insertNewWord "animals" "dog" "a / b"
          (snd (insertNewWord "animals" "dog" "b"
             (snd (insertNewWord "animals" "dog" "a" (opened emptyStore)))))) =
     Resolved (mkInserted "animals" "dog" "a / b") /\
   cachedMeaning
     (snd (insertNewWord "animals" "dog" "a / b"
        (snd (insertNewWord "animals" "dog" "b"
           (snd (insertNewWord "animals" "dog" "a" (opened emptyStore)))))))
     "animals" "dog" <> Some ("a" ++ " / " ++ "b" ++ " / " ++ "a / b")).
Proof.
  split; (split; [vm_compute; reflexivity | vm_compute; discriminate]).
Qed.

(** *** The same call twice *)

(** C4 (as amended).  Two calls with the same arguments, both
    resolving: when the first call did not merge (line 93 read no meaning,
    an empty one, or one equal to the new meaning up to letter case) and
    normalization changes the meaning at most in a way letter case hides,
    the second call returns what the first returned and leaves the cache
    and the records of the store as the first left them. *)
Theorem insertNewWord_twice
    (c w m : string) (st st1 st2 : State) (r1 r2 : Inserted) :
  mergeMeaning (existingMeaningOf st c w) m = m ->
  toLowerCase (normalizeMeaning m) = toLowerCase m ->
  insertNewWord c w m st = (Resolved r1, st1) ->
  insertNewWord c w m st1 = (Resolved r2, st2) ->
  r2 = r1 /\
  quizSet st2 = quizSet st1 /\
  collections (mongo st2) = collections (mongo st1).
Proof.
  intros Hmerge Hcase C1 C2.
  apply insertNewWord_inv in C1 as (e1 & Hq1 & -> & HQ1 & _ & Hc1 & Hm1).
  rewrite Hmerge in *.
  assert (Hreg : registered c st1 = st1).
  { unfold registered, js_get. now rewrite Hc1. }
  assert (Hex : mergeMeaning (existingMeaningOf st1 c w) m = m).
  { unfold existingMeaningOf, js_get, cachedMeaning, getQuizSet.
    rewrite Hc1, HQ1, lookup_insert_eq. simpl.
    destruct (decide (normalizeWord w = w)) as [E|N].
    - rewrite E, lookup_insert_eq. unfold mergeMeaning.
      rewrite Hcase, String.eqb_refl. cbn [negb].
      now rewrite andb_false_r.
    - rewrite lookup_insert_ne by exact N.
      now rewrite (existing_registered _ _ _ _ Hq1). }
  apply insertNewWord_inv in C2 as (e2 & Hq2 & -> & HQ2 & _ & _ & Hm2).
  rewrite Hreg, Hex in *.
  rewrite HQ1, lookup_insert_eq in Hq2. injection Hq2 as <-.
  split; [reflexivity|]. split.
  - rewrite HQ2, HQ1. now rewrite !insert_insert_eq.
  - rewrite Hm2. unfold documents. rewrite Hm1, lookup_insert_eq. simpl.
    now rewrite upsert_idem, insert_insert_eq.
Qed.

Lemma insertNewWord_twice_witness :
  quizSet (snd (insertNewWord "animals" "cat" "NEKO"
            (snd (insertNewWord "animals" "cat" "NEKO" (opened sampleStore))))) =
  quizSet (snd (insertNewWord "animals" "cat" "NEKO" (opened sampleStore))).
Proof.
  pose (o1 := insertNewWord "animals" "cat" "NEKO" (opened sampleStore)).
  apply (insertNewWord_twice "animals" "cat" "NEKO" (opened sampleStore)
           (snd o1) (snd (insertNewWord "animals" "cat" "NEKO" (snd o1)))
           (mkInserted "animals" "cat" "NEKO") (mkInserted "animals" "cat" "NEKO"));
    vm_compute; reflexivity.
Defined.

(** C4 as stated fails once the first call has merged.  With ["neko"]
    cached for ["cat"], [insertNewWord("animals", "cat", "feline")] gives
    ["neko / feline"]; the same call again compares ["feline"] with that
    merged text, finds them different, and gives
    ["neko / feline / feline"]. *)
Lemma insertNewWord_twice_duplicates :
  fst (insertNewWord "animals" "cat" "feline" (opened sampleStore)) =
    Resolved (mkInserted "animals" "cat" "neko / feline") /\
  fst (insertNewWord "animals" "cat" "feline"
         (snd (insertNewWord "animals" "cat" "feline" (opened sampleStore)))) =
    Resolved (mkInserted "animals" "cat" "neko / feline / feline") /\
  cachedMeaning
    (snd (insertNewWord "animals" "cat" "feline"
       (snd (insertNewWord "animals" "cat" "feline" (opened sampleStore)))))
    "animals" "cat" <>
  cachedMeaning
    (snd (insertNewWord "animals" "cat" "feline" (opened sampleStore)))
    "animals" "cat".
Proof.
  split; [vm_compute; reflexivity|].
  split; [vm_compute; reflexivity|].
  vm_compute. discriminate.
Qed.

(** *** The version token *)

Lemma insertNewWord_version (c w m : string) (st : State) :
  quizSetVersion (snd (insertNewWord c w m st)) = quizSetVersion st.
Proof.
  unfold insertNewWord, ensureCollection, readExisting, updateOne. async.
  repeat case_match; simplify_eq/=; reflexivity.
Qed.

Lemma insertPairs_version (c : string) (pairs : list WordDoc) (st : State) :
  quizSetVersion (snd (insertPairs c pairs st)) = quizSetVersion st.
Proof.
  revert st. induction pairs as [|wm rest IH]; intros st; [reflexivity|].
  cbn [insertPairs]. unfold bind.
  pose proof (insertNewWord_version c (doc_word wm) (doc_meaning wm) st) as Hv.
  destruct (insertNewWord c (doc_word wm) (doc_meaning wm) st) as [[r|e] st1];
    simpl in Hv |- *; [now rewrite IH | exact Hv].
Qed.

Lemma loadCollection_version (name : string) (st : State) :
  mongo (snd (loadCollection name st)) = mongo st /\
  (quizSetVersion (snd (loadCollection name st)) = quizSetVersion st \/
   exists d, initializer (mongo st) = Some d /\
             quizSetVersion (snd (loadCollection name st)) = init_quizSetVersion d).
Proof.
  unfold loadCollection. async.
  repeat case_match; simplify_eq/=; eauto.
Qed.

Lemma loadCollections_version (names : list string) (st : State) :
  mongo (snd (loadCollections names st)) = mongo st /\
  (quizSetVersion (snd (loadCollections names st)) = quizSetVersion st \/
   exists d, initializer (mongo st) = Some d /\
             quizSetVersion (snd (loadCollections names st)) = init_quizSetVersion d).
Proof.
  revert st. induction names as [|name rest IH]; intros st; [simpl; auto|].
  cbn [loadCollections]. unfold bind.
  destruct (loadCollection_version name st) as (Hm & Hv).
  destruct (loadCollection name st) as [[u|e] st1]; simpl in Hm, Hv |- *.
  - destruct (IH st1) as (Hm' & Hv'). rewrite Hm in *.
    split; [assumption|].
    destruct Hv' as [Hv'|Hv']; [rewrite Hv'; exact Hv | now right].
  - auto.
Qed.

(** C6.  The version token is the same after [insertNewWord] and after
    [insertWordsFromFile] as before, whatever the outcome of the call;
    [openDBConnection] leaves it as it was or sets it to the version of
    the initializer record of the root collection. *)
Theorem version_untouched_by_insertion :
  (forall (c w m : string) (st : State),
      getQuizSetVersion (snd (insertNewWord c w m st)) = getQuizSetVersion st) /\
  (forall (wordMeaningArray : list WordDoc) (c : string) (st : State),
      getQuizSetVersion (snd (insertWordsFromFile wordMeaningArray c st)) =
      getQuizSetVersion st) /\
  (forall (outcome : ConnectOutcome) (st : State),
      getQuizSetVersion (fst (openDBConnection (T := unit) None outcome st tt)) =
        getQuizSetVersion st \/
      exists d, initializer (mongo st) = Some d /\
        getQuizSetVersion (fst (openDBConnection (T := unit) None outcome st tt)) =
          init_quizSetVersion d).
Proof.
  split; [exact insertNewWord_version|].
  split; [intros; apply insertPairs_version|].
  intros [err|] st; [left; reflexivity|].
  unfold openDBConnection, getQuizSetVersion.
  destruct (loadCollections_version
              (listCollections (mongo (set_quizzerDatabase true st)))
              (set_quizzerDatabase true st)) as (_ & Hv).
  destruct (loadCollections _ _) as [[u|e] st']; exact Hv.
Qed.

Example version_after_insertion :
  getQuizSetVersion (opened sampleStore) = "1.2.3" /\
  getQuizSetVersion
    (snd (insertNewWord "animals" "cat" "feline" (opened sampleStore))) = "1.2.3".
Proof. split; vm_compute; reflexivity. Qed.

(** *** Bulk insertion *)

Lemma bind_ret_unit (acc : Async unit) (st : State) :
  bind acc (fun _ => ret tt) st = acc st.
Proof. unfold bind, ret. now destruct (acc st) as [[[]|e] st']. Qed.

Lemma fold_insert_acc (c : string) (pairs : list WordDoc) (acc : Async unit) (st : State) :
  fold_left
    (fun acc wm =>
       bind acc (fun _ =>
         bind (insertNewWord c (doc_word wm) (doc_meaning wm)) (fun _ => ret tt)))
    pairs acc st =
  bind acc (fun _ => insertPairs c pairs) st.
Proof.
  revert acc st. induction pairs as [|wm rest IH]; intros acc st.
  - simpl. now rewrite bind_ret_unit.
  - cbn [fold_left insertPairs]. rewrite IH. unfold bind, ret.
    destruct (acc st) as [[u|e] st1]; [|reflexivity].
    now destruct (insertNewWord c (doc_word wm) (doc_meaning wm) st1) as [[r|e] st2].
Qed.

(** C8.  [insertWordsFromFile] runs [insertNewWord] on the pairs one
    after the other, in the order of the list: the call for a pair starts
    in the state the call before it has left, and only when that call has
    resolved (a rejection ends the loop with that rejection).  It is the
    fold from the left of [insertNewWord] over the list. *)
Theorem insertWordsFromFile_sequential
    (wordMeaningArray : list WordDoc) (c : string) (st : State) :
  insertWordsFromFile wordMeaningArray c st = insertWordsFold wordMeaningArray c st /\
  (forall wm : WordDoc,
      insertWordsFromFile (wm :: wordMeaningArray) c st =
      match insertNewWord c (doc_word wm) (doc_meaning wm) st with
      | (Resolved _, st1) => insertWordsFromFile wordMeaningArray c st1
      | (Rejected e, st1) => (Rejected e, st1)
      end).
Proof.
  split; [|reflexivity].
  unfold insertWordsFromFile, insertWordsFold.
  rewrite fold_insert_acc. reflexivity.
Qed.

Example insertWordsFromFile_order :
  cachedMeaning
    (snd (insertWordsFromFile
            [mkWordDoc "crane" "a bird"; mkWordDoc "crane" "a machine"]
            "animals" (opened emptyStore)))
    "animals" "crane" = Some "a bird / a machine".
Proof. vm_compute. reflexivity. Qed.

End WordStore.

(** ** The gateway: the statements *)
Module GatewayFacts.
Import JS DBHandler Gateway.

Section WithUserHandler.
Context {U : Type} `{UserHandler U}.

(** *** addNewWord *)

(** C5.  For a connection without admin privileges an [addNewWord]
    event, whatever its payload, emits nothing (no success event, and
    no other), and leaves the store, the cache and all the rest of the
    process as they were. *)
Theorem addNewWord_without_privileges
    (socketId : string) (data : Payload) (p : Process) :
  hasAdminPrivileges socketId (users (snd p)) = false ->
  fst (addNewWord socketId data p) = [] /\
  mongo (fst (snd (addNewWord socketId data p))) = mongo (fst p) /\
  getQuizSet (fst (snd (addNewWord socketId data p))) = getQuizSet (fst p) /\
  snd (addNewWord socketId data p) = p.
Proof.
  destruct p as [st g]. unfold addNewWord. cbn [snd]. intros ->.
  now repeat split.
Qed.

(** With the privileges and three strings there is one event, of
    success or of failure. *)
Lemma addNewWord_with_privileges
    (socketId c w m : string) (fields : gmap string value) (p : Process) :
  hasAdminPrivileges socketId (users (snd p)) = true ->
  field fields "collectionName" = JString c ->
  field fields "word" = JString w ->
  field fields "meaning" = JString m ->
  fst (addNewWord socketId (Some fields) p) =
    match fst (insertNewWord c w m (fst p)) with
    | Resolved inserted => [addWordSuccess inserted]
    | Rejected _ => [addWordUnsuccessful (Some fields)]
    end.
Proof.
  destruct p as [st g]. unfold addNewWord. cbn [fst snd].
  intros -> -> -> ->.
  now destruct (insertNewWord c w m st) as [[r|e] st'].
Qed.

(** *** userSignup *)

(** When [signUpNewUser] resolves the client gets one event. *)
Lemma userSignup_resolved
    (credentials : gmap string value) (p : Process)
    (userMail password websiteURL : string) (r : Reply) (u : U) :
  validateUserMail (field credentials "userMail") = Some userMail ->
  field credentials "password" = JString password ->
  field credentials "websiteURL" = JString websiteURL ->
  signUpNewUser websiteURL userMail password (users (snd p)) = (Resolved r, u) ->
  fst (userSignup (Some credentials) p) =
    [if success r then signupSuccess else signupUnsuccessful (reason r)].
Proof.
  destruct p as [st g]. unfold userSignup. cbn [snd].
  intros -> -> -> ->. now destruct (success r).
Qed.

(** C7 (the code at the failing input).  A signup request with a valid
    mail address and a string for the password and for the site, whose
    [signUpNewUser] rejects: the error goes to [console.log] and the
    client gets no event at all, neither [signupSuccess] nor
    [signupUnsuccessful]. *)
Theorem userSignup_rejected_unanswered
    (credentials : gmap string value) (p : Process)
    (userMail password websiteURL : string) (err : exn) (u : U) :
  validateUserMail (field credentials "userMail") = Some userMail ->
  field credentials "password" = JString password ->
  field credentials "websiteURL" = JString websiteURL ->
  signUpNewUser websiteURL userMail password (users (snd p)) = (Rejected err, u) ->
  fst (userSignup (Some credentials) p) = [] /\
  console (snd (snd (userSignup (Some credentials) p))) =
    (console (snd p) ++ [err])%list.
Proof.
  destruct p as [st g]. unfold userSignup. cbn [snd].
  intros -> -> -> ->. split; reflexivity.
Qed.

(** *** userLogin *)

(** C10.  A login event with a valid mail address and neither a string
    [sessionId] nor a string [password]: no login function is called,
    [result] stays [undefined], reading [result["success"]] throws, and
    the handler answers [loginUnsuccessful] with ["Invalid UserMail"];
    the process is as before. *)
Theorem userLogin_without_secret
    (socketId : string) (credentials : gmap string value) (p : Process)
    (userMail : string) :
  validateUserMail (field credentials "userMail") = Some userMail ->
  isString (field credentials "sessionId") = false ->
  isString (field credentials "password") = false ->
  userLogin socketId (Some credentials) p =
    ([loginUnsuccessful "Invalid UserMail"], p).
Proof.
  destruct p as [st g]. unfold userLogin. intros -> Hs Hp.
  destruct (field credentials "sessionId"); try discriminate Hs;
    destruct (field credentials "password"); try discriminate Hp;
    reflexivity.
Qed.

(** *** Start-up *)

(** C9 (as amended).  When the connection to the store fails at
    start-up, the two error lines are logged and nothing is thrown; the
    cache stays empty and the version token stays ["0.0.0"].  The
    callback is not run: the user handler is not initialised and
    [httpServer.listen] is never called, so no client can connect. *)
Theorem start_connection_failed (err : string) (m : Mongo) (u : U) :
  logger (fst (start (ConnectFailed err) (boot m u))) =
    [log_error "DB connection error..."; log_error err] /\
  uncaught (snd (start (ConnectFailed err) (boot m u))) = None /\
  getQuizSet (fst (start (ConnectFailed err) (boot m u))) = ∅ /\
  getQuizSetVersion (fst (start (ConnectFailed err) (boot m u))) = "0.0.0" /\
  users (snd (start (ConnectFailed err) (boot m u))) = u /\
  serves (start (ConnectFailed err) (boot m u)) = false.
Proof. now repeat split. Qed.

(** With a connection and a store that loads, the server listens. *)
Lemma start_connected (m : Mongo) (u : U) (st : State) :
  loadCollections (listCollections m) (set_quizzerDatabase true (initial m)) =
    (Resolved tt, st) ->
  serves (start Connected (boot m u)) = true.
Proof.
  unfold start, boot, openDBConnection, serves. cbn [fst snd].
  change (mongo (set_quizzerDatabase true (initial m))) with m.
  now intros ->.
Qed.

End WithUserHandler.

Lemma addNewWord_without_privileges_witness :
  hasAdminPrivileges "socket-1" (users (snd (boot sampleStore (mkDesk ["socket-0"] false))))
    = false /\
  fst (addNewWord "socket-1"
         (Some (<["collectionName" := JString "animals"]>
                  (<["word" := JString "cat"]> (<["meaning" := JString "feline"]> ∅))))
         (start Connected (boot sampleStore (mkDesk ["socket-0"] false)))) = [].
Proof.
  split; [reflexivity|].
  apply (addNewWord_without_privileges "socket-1" _
           (start Connected (boot sampleStore (mkDesk ["socket-0"] false)))).
  vm_compute. reflexivity.
Defined.

Lemma userSignup_rejected_unanswered_witness :
  fst (userSignup
         (Some (<["userMail" := JString "a@b.com"]>
                  (<["password" := JString "p"]>
                     (<["websiteURL" := JString "http://x"]> ∅))))
         (boot emptyStore (mkDesk [] true))) = [].
Proof.
  apply (userSignup_rejected_unanswered _ (boot emptyStore (mkDesk [] true))
           "a@b.com" "p" "http://x" StoreError (mkDesk [] true));
    vm_compute; reflexivity.
Defined.

Lemma userLogin_without_secret_witness :
  userLogin "socket-1"
    (Some (<["userMail" := JString "A@b.com"]> (<["rememberMe" := JBoolean true]> ∅)))
    (boot emptyStore (mkDesk [] false)) =
  ([loginUnsuccessful "Invalid UserMail"], boot emptyStore (mkDesk [] false)).
Proof.
  apply (userLogin_without_secret "socket-1" _ (boot emptyStore (mkDesk [] false))
           "a@b.com"); vm_compute; reflexivity.
Defined.

(** C9 as stated fails: after a failed connection the server does not
    serve.  With the error ["ECONNREFUSED"] the process that starts is
    not listening, whereas the one that connects is. *)
Lemma start_connection_failed_not_serving :
  serves (start (ConnectFailed "ECONNREFUSED") (boot sampleStore (mkDesk [] false)))
    <> true /\
  serves (start Connected (boot sampleStore (mkDesk [] false))) = true.
Proof. split; [vm_compute; discriminate | vm_compute; reflexivity]. Qed.

End GatewayFacts.

(** ** More on the text functions *)
Module TextMore.
Import JS DBHandler Gateway TextSpec TextFacts.

(** *** Normal forms *)

Lemma spaceAfter_fix (cls : ascii -> bool) (s : string) :
  tight cls s = false -> spaceAfter cls s = s.
Proof.
  induction s as [|c r IH]; [reflexivity|].
  destruct r as [|d r]; [reflexivity|].
  rewrite tight_cons2, spaceAfter_cons2. intros H.
  apply orb_false_iff in H as [-> H]. now rewrite IH.
Qed.

Lemma normal_idem (cls : ascii -> bool) (s : string) :
  cls " "%char = false ->
  trim (spaceAfter cls (trim (spaceAfter cls s))) = trim (spaceAfter cls s).
Proof.
  intros Hsp. rewrite (spaceAfter_fix cls (trim (spaceAfter cls s)))
    by now apply normal_loose.
  apply trim_idem.
Qed.

(** X1.  Normalizing twice is normalizing once, for the meaning (line 99)
    and for the word (line 100): what [insertNewWord] stores and returns is
    left as it is when it is inserted again. *)
Theorem normalize_idempotent (text : string) :
  normalizeMeaning (normalizeMeaning text) = normalizeMeaning text /\
  normalizeWord (normalizeWord text) = normalizeWord text.
Proof. split; apply normal_idem; reflexivity. Qed.

(** X2.  A normalized meaning or word has no white space at either end,
    and none of its punctuation characters stands directly before a
    character that is not white space. *)
Theorem normalize_shape (text : string) :
  (trim (normalizeMeaning text) = normalizeMeaning text /\
   tight meaningPunct (normalizeMeaning text) = false) /\
  (trim (normalizeWord text) = normalizeWord text /\
   tight wordPunct (normalizeWord text) = false).
Proof.
  unfold normalizeMeaning, normalizeWord.
  repeat split; try apply trim_idem; now apply normal_loose.
Qed.

Lemma visible_spaceAfter (cls : ascii -> bool) (s : string) :
  visible (spaceAfter cls s) = visible s.
Proof.
  induction s as [|c r IH]; [reflexivity|].
  destruct r as [|d r]; [reflexivity|].
  rewrite spaceAfter_cons2.
  destruct (cls c && negb (isWhiteSpace d)); cbn [visible];
    change (isWhiteSpace " ") with true; cbn iota; now rewrite IH.
Qed.

Lemma visible_trimStart (s : string) : visible (trimStart s) = visible s.
Proof.
  induction s as [|c r IH]; [reflexivity|]. cbn [trimStart visible].
  destruct (isWhiteSpace c) eqn:E; [exact IH|]. cbn [visible]. now rewrite E.
Qed.

Lemma visible_trimEnd (s : string) : visible (trimEnd s) = visible s.
Proof.
  induction s as [|c r IH]; [reflexivity|]. cbn [trimEnd visible].
  destruct (trimEnd r) as [|a t].
  - rewrite <- IH. destruct (isWhiteSpace c) eqn:E; cbn [visible]; now rewrite ?E.
  - cbn [visible] in *. now rewrite IH.
Qed.

(** X3.  Normalization only moves white space: the characters of the
    meaning and of the word that are not white space are kept, all of them
    and in their order. *)
Theorem normalize_keeps_visible (text : string) :
  visible (normalizeMeaning text) = visible text /\
  visible (normalizeWord text) = visible text.
Proof.
  unfold normalizeMeaning, normalizeWord, trim.
  now rewrite !visible_trimEnd, !visible_trimStart, !visible_spaceAfter.
Qed.

(** X4.  The word under which [insertNewWord] files a meaning (line 105)
    is never [__proto__], whatever word the call is given: the assignment
    always makes an own property of the collection's dictionary. *)
Theorem stored_word_not_proto (word meaning : string) (entries : gmap string string) :
  normalizeWord word <> "__proto__" /\
  js_set (normalizeWord word) meaning entries !! normalizeWord word = Some meaning.
Proof.
  split; [apply DBHandlerFacts.normalizeWord_not_proto|].
  rewrite DBHandlerFacts.js_set_normalizeWord. apply lookup_insert_eq.
Qed.

(** *** Lower case *)

Lemma lowerChar_idem (c : ascii) : lowerChar (lowerChar c) = lowerChar c.
Proof. destruct c as [[] [] [] [] [] [] [] []]; reflexivity. Qed.

Lemma toLowerCase_idem (s : string) : toLowerCase (toLowerCase s) = toLowerCase s.
Proof.
  induction s as [|c r IH]; [reflexivity|]. cbn [toLowerCase].
  now rewrite lowerChar_idem, IH.
Qed.

(** *** The mail pattern *)

Lemma nullable_sound (r : regex) : nullable r = true -> lang r "".
Proof.
  induction r as [| |p|r1 IH1 r2 IH2|r1 IH1 r2 IH2|r IH]; cbn [nullable]; intros Hn;
    try discriminate.
  - constructor.
  - apply andb_true_iff in Hn as [H1 H2].
    change "" with ("" ++ ""). constructor; auto.
  - apply orb_true_iff in Hn as [H1|H2];
      [apply lang_alt_l | apply lang_alt_r]; auto.
  - constructor.
Qed.

Lemma deriv_sound (c : ascii) (r : regex) (s : string) :
  lang (deriv c r) s -> lang r (String c s).
Proof.
  revert s.
  induction r as [| |p|r1 IH1 r2 IH2|r1 IH1 r2 IH2|r IH]; cbn [deriv]; intros s Hl.
  - inversion Hl.
  - inversion Hl.
  - destruct (p c) eqn:E; inversion Hl; subst. now constructor.
  - assert (Hcat : forall t, lang (Cat (deriv c r1) r2) t -> lang (Cat r1 r2) (String c t)).
    { intros t Ht. inversion Ht; subst. rewrite <- append_cons.
      constructor; auto. }
    destruct (nullable r1) eqn:En; [|now apply Hcat].
    inversion Hl; subst; [now apply Hcat|].
    rewrite <- (append_nil (String c s)). constructor; [now apply nullable_sound | auto].
  - inversion Hl; subst; [apply lang_alt_l | apply lang_alt_r]; auto.
  - inversion Hl; subst. rewrite <- append_cons. constructor; auto.
Qed.

Lemma matches_sound (r : regex) (s : string) : matches r s = true -> lang r s.
Proof.
  revert r. induction s as [|c s IH]; intros r; cbn [matches].
  - apply nullable_sound.
  - intros H. apply deriv_sound, IH, H.
Qed.

Lemma append_eq_nil (a b : string) : a ++ b = "" -> a = "" /\ b = "".
Proof. destruct a; [now rewrite append_nil | now rewrite append_cons]. Qed.

Lemma lang_nil_nullable (r : regex) (s : string) :
  lang r s -> s = "" -> nullable r = true.
Proof.
  induction 1 as [|p c Hp|r1 r2 s1 s2 _ IH1 _ IH2|r1 r2 s _ IH|r1 r2 s _ IH| |];
    intros E; cbn [nullable]; try reflexivity.
  - discriminate.
  - apply append_eq_nil in E as [-> ->]. now rewrite IH1, IH2.
  - now rewrite IH.
  - rewrite IH by assumption. apply orb_true_r.
Qed.

Lemma lang_nonempty (r : regex) (s : string) :
  nullable r = false -> lang r s -> s <> "".
Proof. intros Hn Hl E. now rewrite (lang_nil_nullable r s Hl E) in Hn. Qed.

Lemma append_nil_r (a : string) : a ++ "" = a.
Proof. induction a as [|c a IH]; [reflexivity|]. now rewrite append_cons, IH. Qed.

Lemma append_nonempty_l (a b : string) : a <> "" -> a ++ b <> "".
Proof. destruct a; [congruence|]. now rewrite append_cons. Qed.

Lemma lang_lit (a : ascii) (s : string) : lang (lit a) s -> s = String a "".
Proof.
  unfold lit. inversion 1 as [|p c Hp| | | | |]; subst.
  now apply Ascii.eqb_eq in Hp as ->.
Qed.

Lemma lang_star_chars (p : ascii -> bool) (s : string) :
  lang (Star (Chr p)) s -> allChars p s = true.
Proof.
  intros Hl. remember (Star (Chr p)) as r eqn:Er.
  induction Hl as [| | | | | |r0 s1 s2 H1 _ H2 IH2]; try discriminate; [reflexivity|].
  injection Er as ->. inversion H1; subst.
  rewrite append_cons, append_nil. cbn [allChars].
  rewrite IH2 by reflexivity. now rewrite andb_true_r.
Qed.

(** A repetition of labels, each closed by a point, is empty or ends
    with a point that something precedes. *)
Lemma lang_labels (a : regex) (s : string) :
  lang (Star (Cat a (lit "."))) s ->
  s = "" \/ exists h, s = h ++ ".".
Proof.
  intros Hl. remember (Star (Cat a (lit "."))) as r eqn:Er.
  induction Hl as [| | | | | |r0 s1 s2 H1 _ H2 IH2]; try discriminate; [now left|].
  injection Er as ->. right.
  destruct (IH2 eq_refl) as [->|[h ->]].
  - inversion H1; subst. apply lang_lit in H5 as ->.
    rewrite append_nil_r. eauto.
  - exists (s1 ++ h). now rewrite append_assoc.
Qed.

(** X5.  An address that [validateUserMail] lets through is the
    lower-cased text of what it was given, and reads as a local part, an at
    sign, a host and, after a point, a last label of two characters or
    more, none of them white space or one of the characters the pattern
    excludes. *)
Theorem validateUserMail_shape (email : value) (mail : string) :
  validateUserMail email = Some mail ->
  mail = toLowerCase (String_ email) /\
  exists localPart host label,
    mail = localPart ++ "@" ++ host ++ "." ++ label /\
    localPart <> "" /\ host <> "" /\
    (2 <= String.length label)%nat /\
    allChars atomChar label = true.
Proof.
  unfold validateUserMail.
  destruct (matches mailPattern (toLowerCase (String_ email))) eqn:Hm; [|discriminate].
  intros [= <-]. split; [reflexivity|].
  apply matches_sound in Hm. revert Hm.
  generalize (toLowerCase (String_ email)) as s. intros s Hm.
  unfold mailPattern in Hm. cbv zeta in Hm.
  inversion Hm as [| |r1 r2 l rest Hl Hrest| | | |]; subst. clear Hm.
  inversion Hrest as [| |r1 r2 a dom Ha Hdom| | | |]; subst. clear Hrest.
  apply lang_lit in Ha as ->.
  inversion Hdom as [| |r1 r2 labels tl Hlabels Htl| | | |]; subst. clear Hdom.
  inversion Htl as [| |r1 r2 c1 tl2 Hc1 Htl2| | | |]; subst. clear Htl.
  inversion Htl2 as [| |r1 r2 c2 tl3 Hc2 Htl3| | | |]; subst. clear Htl2.
  inversion Hc1 as [|p x1 Hx1| | | | |]; subst. clear Hc1.
  inversion Hc2 as [|p x2 Hx2| | | | |]; subst. clear Hc2.
  apply lang_star_chars in Htl3.
  assert (Hhost : exists host, labels = host ++ "." /\ host <> "").
  { unfold Plus in Hlabels.
    inversion Hlabels as [| |r1 r2 x xs Hx Hxs| | | |]; subst.
    inversion Hx as [| |r1 r2 at1 pt Hat Hpt| | | |]; subst.
    apply lang_lit in Hpt as ->.
    assert (Hne : at1 <> "") by (eapply lang_nonempty; [|exact Hat]; reflexivity).
    apply lang_labels in Hxs as [->|[h ->]].
    - rewrite append_nil_r. eauto.
    - exists ((at1 ++ ".") ++ h). split; [now rewrite !append_assoc|].
      apply append_nonempty_l, append_nonempty_l, Hne. }
  destruct Hhost as (host & -> & Hhost).
  exists l, host, (String x1 (String x2 tl3)).
  split; [|split; [|split; [exact Hhost|split]]].
  - rewrite !append_cons, !append_nil, append_assoc. reflexivity.
  - eapply lang_nonempty; [|exact Hl]. reflexivity.
  - simpl. lia.
  - cbn [allChars]. now rewrite Hx1, Hx2, Htl3.
Qed.

Lemma validateUserMail_shape_witness :
  validateUserMail (JString "Ada.Lovelace@Mail.Example.ORG") =
    Some "ada.lovelace@mail.example.org" /\
  exists localPart host label,
    "ada.lovelace@mail.example.org" = localPart ++ "@" ++ host ++ "." ++ label /\
    localPart <> "" /\ host <> "" /\
    (2 <= String.length label)%nat /\
    allChars atomChar label = true.
Proof.
  split; [vm_compute; reflexivity|].
  apply (validateUserMail_shape (JString "Ada.Lovelace@Mail.Example.ORG")
           "ada.lovelace@mail.example.org").
  vm_compute. reflexivity.
Defined.

(** X6.  An address that went through [validateUserMail] goes through
    again and comes out the same: the handlers may put it back into the
    payload (lines 112 and 136) and validate it anew. *)
Theorem validateUserMail_again (email : value) (mail : string) :
  validateUserMail email = Some mail ->
  validateUserMail (JString mail) = Some mail.
Proof.
  unfold validateUserMail.
  destruct (matches mailPattern (toLowerCase (String_ email))) eqn:Hm; [|discriminate].
  intros [= <-]. cbn [String_]. now rewrite toLowerCase_idem, Hm.
Qed.

Lemma validateUserMail_again_witness :
  validateUserMail (JOther "Quiz@Example.com") = Some "quiz@example.com" /\
  validateUserMail (JString "quiz@example.com") = Some "quiz@example.com".
Proof.
  split; [vm_compute; reflexivity|].
  apply (validateUserMail_again (JOther "Quiz@Example.com")).
  vm_compute. reflexivity.
Defined.

End TextMore.

(** ** Start-up: what openDBConnection loads *)
Module LoadFacts.
Import JS DBHandler DBHandlerRest Gateway TextFacts DBHandlerFacts.

Lemma listCollections_elem (m : Mongo) (c : string) :
  c ∈ listCollections m <-> is_Some (collections m !! c).
Proof.
  unfold listCollections. rewrite list_elem_of_fmap. split.
  - intros [[k docs] [-> Hin]]. apply elem_of_map_to_list in Hin. eexists; exact Hin.
  - intros [docs Hd]. exists (c, docs). split; [reflexivity|].
    now apply elem_of_map_to_list.
Qed.

(** One turn of the loop, by the name of the collection. *)
Lemma loadCollection_root (st : State) :
  loadCollection "_Root" st =
    match initializer (mongo st) with
    | Some d => (Resolved tt, set_root d (set_collectionSet (insert "_Root" Handle) st))
    | None => (Rejected TypeError, set_collectionSet (insert "_Root" Handle) st)
    end.
Proof.
  unfold loadCollection. async. cbn [String.eqb Ascii.eqb Bool.eqb]. simpl.
  now destruct (initializer (mongo st)).
Qed.

Lemma loadCollection_users (st : State) :
  loadCollection "UserBase" st =
    (Resolved tt, set_collectionSet (insert "UserBase" Handle) st).
Proof. reflexivity. Qed.

Lemma loadCollection_quiz (name : string) (st : State) :
  name <> "_Root" -> name <> "UserBase" ->
  loadCollection name st =
    (Resolved tt,
     set_quizSet (insert name (loadDocuments (documents (mongo st) name) ∅))
       (set_collectionSet (insert name Handle) st)).
Proof.
  intros H1 H2. unfold loadCollection. async.
  apply String.eqb_neq in H1, H2. now rewrite H1, H2.
Qed.

Lemma loadCollection_mongo (name : string) (st : State) :
  mongo (snd (loadCollection name st)) = mongo st.
Proof. apply WordStore.loadCollection_version. Qed.

(** The three shapes of a turn. *)
Lemma loadCollection_cases (name : string) (st : State) :
  (name = "_Root" /\
   loadCollection name st =
     match initializer (mongo st) with
     | Some d => (Resolved tt, set_root d (set_collectionSet (insert name Handle) st))
     | None => (Rejected TypeError, set_collectionSet (insert name Handle) st)
     end) \/
  (name = "UserBase" /\
   loadCollection name st = (Resolved tt, set_collectionSet (insert name Handle) st)) \/
  (name <> "_Root" /\ name <> "UserBase" /\
   loadCollection name st =
     (Resolved tt,
      set_quizSet (insert name (loadDocuments (documents (mongo st) name) ∅))
        (set_collectionSet (insert name Handle) st))).
Proof.
  destruct (decide (name = "_Root")) as [->|N1];
    [left; split; [reflexivity | apply loadCollection_root]|].
  destruct (decide (name = "UserBase")) as [->|N2];
    [right; left; split; [reflexivity | apply loadCollection_users]|].
  right; right. split; [exact N1|]. split; [exact N2|].
  now apply loadCollection_quiz.
Qed.

Lemma loadCollections_cons (name : string) (rest : list string) (st : State) :
  loadCollections (name :: rest) st =
    match loadCollection name st with
    | (Resolved _, st1) => loadCollections rest st1
    | (Rejected e, st1) => (Rejected e, st1)
    end.
Proof. reflexivity. Qed.

Lemma loadCollections_resolves (names : list string) (st : State) :
  ("_Root" ∈ names -> is_Some (initializer (mongo st))) ->
  exists st', loadCollections names st = (Resolved tt, st').
Proof.
  revert st. induction names as [|name rest IH]; intros st Hroot; [eexists; reflexivity|].
  rewrite loadCollections_cons.
  pose proof (loadCollection_mongo name st) as Hm.
  destruct (loadCollection_cases name st) as [[-> E]|[[-> E]|(N1 & N2 & E)]].
  - destruct Hroot as [d Hd]; [apply list_elem_of_here|]. rewrite Hd in E.
    rewrite E in Hm |- *. apply IH. cbn [snd] in Hm. rewrite Hm, Hd. intros _. eexists; reflexivity.
  - rewrite E in Hm |- *. apply IH. cbn [snd] in Hm. rewrite Hm.
    intros Hin. apply Hroot. now apply list_elem_of_further.
  - rewrite E in Hm |- *. apply IH. cbn [snd] in Hm. rewrite Hm.
    intros Hin. apply Hroot. now apply list_elem_of_further.
Qed.

Lemma loadCollections_rejects (names : list string) (st : State) :
  "_Root" ∈ names -> initializer (mongo st) = None ->
  exists st', loadCollections names st = (Rejected TypeError, st').
Proof.
  revert st. induction names as [|name rest IH]; intros st Hin Hnone.
  - now apply not_elem_of_nil in Hin.
  - rewrite loadCollections_cons.
    pose proof (loadCollection_mongo name st) as Hm.
    assert (Hrest : name <> "_Root" -> "_Root" ∈ rest).
    { intros N. apply elem_of_cons in Hin as [E|Hr]; [congruence | exact Hr]. }
    destruct (loadCollection_cases name st) as [[-> E]|[[-> E]|(N1 & N2 & E)]].
    + rewrite Hnone in E. rewrite E. eexists; reflexivity.
    + rewrite E in Hm |- *. cbn [snd] in Hm. apply IH; [now apply Hrest|].
      now rewrite Hm.
    + rewrite E in Hm |- *. cbn [snd] in Hm. apply IH; [now apply Hrest|].
      now rewrite Hm.
Qed.

(** The cache after the loop, for a name the loop does not load... *)
Lemma loadCollections_cache_other (names : list string) (st : State) (c : string) :
  c ∉ names \/ c = "_Root" \/ c = "UserBase" ->
  quizSet (snd (loadCollections names st)) !! c = quizSet st !! c.
Proof.
  revert st. induction names as [|name rest IH]; intros st Hc; [reflexivity|].
  rewrite loadCollections_cons.
  assert (Hrest : c ∉ rest \/ c = "_Root" \/ c = "UserBase").
  { destruct Hc as [Hc|Hc]; [left | now right].
    intros Hin. apply Hc. now apply list_elem_of_further. }
  destruct (loadCollection_cases name st) as [[-> E]|[[-> E]|(N1 & N2 & E)]];
    rewrite E.
  - destruct (initializer (mongo st)); [now rewrite IH | reflexivity].
  - now rewrite IH.
  - rewrite IH by exact Hrest. cbn [quizSet set_quizSet set_collectionSet].
    apply lookup_insert_ne. intros <-.
    destruct Hc as [Hc|[Hc|Hc]]; [|congruence|congruence].
    apply Hc, list_elem_of_here.
Qed.

(** ... and for a quiz collection of the list, when the loop ends. *)
Lemma loadCollections_cache_loaded (names : list string) (st st' : State) (c : string) :
  loadCollections names st = (Resolved tt, st') ->
  c ∈ names -> c <> "_Root" -> c <> "UserBase" ->
  quizSet st' !! c = Some (loadDocuments (documents (mongo st) c) ∅).
Proof.
  revert st. induction names as [|name rest IH]; intros st Hl Hin N1 N2.
  - now apply not_elem_of_nil in Hin.
  - rewrite loadCollections_cons in Hl.
    pose proof (loadCollection_mongo name st) as Hm.
    destruct (loadCollection name st) as [[u|e] st1] eqn:E; [|discriminate].
    cbn [snd] in Hm.
    destruct (decide (c ∈ rest)) as [Hr|Hr].
    + rewrite <- Hm. now apply IH.
    + apply elem_of_cons in Hin as [<-|Hin]; [|contradiction].
      pose proof (loadCollections_cache_other rest st1 c (or_introl Hr)) as Ho.
      rewrite Hl in Ho. cbn [snd] in Ho. rewrite Ho.
      rewrite (loadCollection_quiz c st N1 N2) in E.
      apply (f_equal snd) in E. cbn [snd] in E. subst st1.
      cbn [quizSet set_quizSet]. apply lookup_insert_eq.
Qed.

Lemma loadCollections_handles (names : list string) (st : State) (c : string) :
  collectionSet (snd (loadCollections names st)) !! c = Some Handle \/
  collectionSet (snd (loadCollections names st)) !! c = collectionSet st !! c.
Proof.
  revert st. induction names as [|name rest IH]; intros st; [now right|].
  rewrite loadCollections_cons.
  assert (Hone : forall st1, collectionSet st1 = <[name := Handle]> (collectionSet st) ->
            collectionSet st1 !! c = Some Handle \/
            collectionSet st1 !! c = collectionSet st !! c).
  { intros st1 ->. destruct (decide (name = c)) as [->|N];
      [left; apply lookup_insert_eq | right; now apply lookup_insert_ne]. }
  destruct (loadCollection_cases name st) as [[-> E]|[[-> E]|(N1 & N2 & E)]];
    rewrite E; try destruct (initializer (mongo st)); cbn [snd];
    try (now apply Hone);
    match goal with
    | |- context [loadCollections rest ?s] =>
        destruct (IH s) as [H|H]; [now left|];
        rewrite H; now apply Hone
    end.
Qed.

Lemma loadCollections_handle_listed (names : list string) (st st' : State) (c : string) :
  loadCollections names st = (Resolved tt, st') -> c ∈ names ->
  collectionSet st' !! c = Some Handle.
Proof.
  revert st. induction names as [|name rest IH]; intros st Hl Hin.
  - now apply not_elem_of_nil in Hin.
  - rewrite loadCollections_cons in Hl.
    destruct (loadCollection name st) as [[u|e] st1] eqn:E; [|discriminate].
    destruct (decide (c ∈ rest)) as [Hr|Hr]; [now apply (IH st1)|].
    apply elem_of_cons in Hin as [<-|Hin]; [|contradiction].
    destruct (loadCollections_handles rest st1 c) as [H|H];
      rewrite Hl in H; cbn [snd] in H; [exact H|]. rewrite H.
    destruct (loadCollection_cases c st) as [[-> E']|[[-> E']|(N1 & N2 & E')]];
      rewrite E in E'; try destruct (initializer (mongo st));
      try discriminate; apply (f_equal snd) in E'; cbn [snd] in E'; subst st1;
      apply lookup_insert_eq.
Qed.

(** The version token and the credentials after the loop, whatever its
    outcome. *)
Lemma loadCollections_root (names : list string) (st : State) :
  (quizSetVersion (snd (loadCollections names st)),
   mailVerificationCredentials (snd (loadCollections names st))) =
  match bool_decide ("_Root" ∈ names), initializer (mongo st) with
  | true, Some d => (init_quizSetVersion d, Some (init_credentials d))
  | _, _ => (quizSetVersion st, mailVerificationCredentials st)
  end.
Proof.
  revert st. induction names as [|name rest IH]; intros st.
  - rewrite bool_decide_eq_false_2 by apply not_elem_of_nil. reflexivity.
  - rewrite loadCollections_cons.
    pose proof (loadCollection_mongo name st) as Hm.
    destruct (loadCollection_cases name st) as [[-> E]|[[-> E]|(N1 & N2 & E)]];
      rewrite E in Hm |- *.
    + rewrite (bool_decide_eq_true_2 _ (list_elem_of_here _ _)).
      destruct (initializer (mongo st)) as [d|] eqn:Hd; [|reflexivity].
      cbn [snd] in Hm. rewrite IH, Hm, Hd.
      now destruct (bool_decide ("_Root" ∈ rest)).
    + cbn [snd] in Hm. rewrite IH, Hm.
      rewrite (bool_decide_ext ("_Root" ∈ "UserBase" :: rest) ("_Root" ∈ rest));
        [reflexivity|].
      rewrite elem_of_cons. split; [intros [?|?]; [discriminate | assumption] | auto].
    + cbn [snd] in Hm. rewrite IH, Hm.
      rewrite (bool_decide_ext ("_Root" ∈ name :: rest) ("_Root" ∈ rest));
        [reflexivity|].
      rewrite elem_of_cons. split; [intros [?|?]; [congruence | assumption] | auto].
Qed.

Lemma findOne_app (w : string) (l1 l2 : list WordDoc) :
  findOne w (l1 ++ l2) =
    match findOne w l1 with Some x => Some x | None => findOne w l2 end.
Proof.
  induction l1 as [|d l1 IH]; [reflexivity|]. simpl.
  now destruct (String.eqb (doc_word d) w).
Qed.

(** Lines 61 to 63 on the records of a collection: a later record of a
    word replaces an earlier one. *)
Lemma loadDocuments_lookup (docs : list WordDoc) (acc : gmap string string) (w : string) :
  w <> "__proto__" ->
  loadDocuments docs acc !! w =
    match findOne w (rev docs) with Some x => Some x | None => acc !! w end.
Proof.
  intros Hw. unfold loadDocuments. revert acc.
  induction docs as [|d docs IH]; intros acc; [reflexivity|].
  cbn [fold_left rev]. rewrite IH, findOne_app.
  destruct (findOne w (rev docs)); [reflexivity|].
  cbn [findOne]. unfold js_set.
  destruct (String.eqb_spec (doc_word d) w) as [E|N].
  - rewrite E. apply String.eqb_neq in Hw. rewrite Hw. apply lookup_insert_eq.
  - destruct (String.eqb (doc_word d) "__proto__"); [reflexivity|].
    now apply lookup_insert_ne.
Qed.

Lemma findOne_rev_nodup (w : string) (docs : list WordDoc) :
  NoDup (words docs) -> findOne w (rev docs) = findOne w docs.
Proof.
  unfold words. induction docs as [|d docs IH]; [reflexivity|].
  cbn [map rev]. intros Hnd. apply NoDup_cons in Hnd as [Hd Hnd].
  rewrite findOne_app, IH by exact Hnd. cbn [findOne].
  destruct (String.eqb_spec (doc_word d) w) as [E|N].
  - assert (Hnone : findOne w docs = None).
    { clear IH Hnd. induction docs as [|d' docs IH]; [reflexivity|].
      cbn [findOne]. apply not_elem_of_cons in Hd as [Hne Hd].
      destruct (String.eqb_spec (doc_word d') w) as [E'|_]; [congruence | now apply IH]. }
    now rewrite Hnone.
  - now destruct (findOne w docs).
Qed.

Lemma opened_unfold (m : Mongo) :
  opened m =
  snd (loadCollections (listCollections m) (set_quizzerDatabase true (initial m))).
Proof.
  unfold opened, openDBConnection.
  change (mongo (set_quizzerDatabase true (initial m))) with m.
  now destruct (loadCollections _ _) as [[u|e] st'].
Qed.

Lemma rootReady_resolves (m : Mongo) :
  rootReady m ->
  exists st', loadCollections (listCollections m) (set_quizzerDatabase true (initial m))
              = (Resolved tt, st').
Proof.
  intros Hr. apply loadCollections_resolves. intros Hin.
  apply Hr. now apply listCollections_elem.
Qed.

(** X7.  After a start-up that loads, the cache has an entry for each
    collection of the store other than [_Root] and [UserBase], and in it
    every word has the meaning of the last record of that word; the two
    reserved collections and the names the store does not have get no entry. *)
Theorem opened_cache (m : Mongo) (c : string) :
  rootReady m ->
  (forall docs w, collections m !! c = Some docs ->
     c <> "_Root" -> c <> "UserBase" -> w <> "__proto__" ->
     cachedMeaning (opened m) c w = findOne w (rev docs)) /\
  (collections m !! c = None \/ c = "_Root" \/ c = "UserBase" ->
   getQuizSet (opened m) !! c = None).
Proof.
  intros Hr. rewrite opened_unfold. split.
  - intros docs w Hc N1 N2 Hw.
    destruct (rootReady_resolves m Hr) as [st' Hl].
    unfold cachedMeaning, getQuizSet. rewrite Hl. cbn [snd].
    rewrite (loadCollections_cache_loaded _ _ st' c Hl); try assumption;
      [|apply listCollections_elem; eexists; exact Hc].
    simpl. rewrite loadDocuments_lookup by exact Hw.
    unfold documents. simpl. rewrite Hc. simpl.
    rewrite lookup_empty. now destruct (findOne w (rev docs)).
  - intros Hc. unfold getQuizSet. rewrite loadCollections_cache_other.
    + apply lookup_empty.
    + destruct Hc as [Hc|Hc]; [left | now right].
      rewrite listCollections_elem, Hc. now intros [x Hx].
Qed.

Lemma sampleStore_ready : rootReady sampleStore.
Proof. intros _. eexists; reflexivity. Qed.

Lemma opened_cache_witness :
  rootReady sampleStore /\
  getQuizSet (opened sampleStore) !! "UserBase" = None.
Proof.
  split; [exact sampleStore_ready|].
  apply (opened_cache sampleStore "UserBase" sampleStore_ready). auto.
Defined.

(** X8.  After the connection the version token and the credentials are
    those of the initializer record when the store has [_Root] with that
    record; otherwise they are what the module starts with, ["0.0.0"] and
    nothing. *)
Theorem opened_root (m : Mongo) :
  (getQuizSetVersion (opened m), getMVC (opened m)) =
  match collections m !! "_Root", initializer m with
  | Some _, Some d => (init_quizSetVersion d, Some (init_credentials d))
  | _, _ => ("0.0.0", None)
  end.
Proof.
  rewrite opened_unfold. unfold getQuizSetVersion, getMVC.
  rewrite loadCollections_root.
  change (mongo (set_quizzerDatabase true (initial m))) with m.
  destruct (collections m !! "_Root") as [docs|] eqn:Hc.
  - rewrite bool_decide_eq_true_2; [reflexivity|].
    apply listCollections_elem. eexists; exact Hc.
  - rewrite bool_decide_eq_false_2; [reflexivity|].
    rewrite listCollections_elem, Hc. now intros [x Hx].
Qed.

Section Start.
Context {U : Type} `{UserHandler U}.

(** X9.  With a connection to a store whose [_Root] lacks the
    initializer record, [initializerDoc["jwtSecret"]] throws in the connect
    handler, the callback is never run and the server never listens. *)
Theorem start_without_initializer (m : Mongo) (u : U) (docs : list WordDoc) :
  collections m !! "_Root" = Some docs -> initializer m = None ->
  serves (start Connected (boot m u)) = false.
Proof.
  intros Hd Hi. unfold start, boot, openDBConnection, serves. cbn [fst snd].
  change (mongo (set_quizzerDatabase true (initial m))) with m.
  destruct (loadCollections_rejects (listCollections m)
              (set_quizzerDatabase true (initial m))) as [st' Hl];
    [apply listCollections_elem; eexists; exact Hd | exact Hi|].
  now rewrite Hl.
Qed.

End Start.

Lemma start_without_initializer_witness :
  serves (start Connected
            (boot (mkMongo (<["_Root" := []]> (<["animals" := []]> ∅)) None [])
                  (mkDesk [] false))) = false.
Proof.
  apply (start_without_initializer
           (mkMongo (<["_Root" := []]> (<["animals" := []]> ∅)) None [])
           (mkDesk [] false) []); reflexivity.
Defined.

End LoadFacts.

(** ** insertNewWord: success, refusals, and what a call leaves alone *)
Module StoreMore.
Import JS DBHandler DBHandlerRest TextFacts DBHandlerFacts LoadFacts.

(** X10.  A call resolves whenever neither name is a member of
    [Object.prototype], the collection is either new, with the connection
    open, or has both its handle and its cache entry, and the store takes
    the write. *)
Theorem insertNewWord_succeeds (c w m : string) (st : State) :
  inherited c = false -> inherited w = false ->
  (collectionSet st !! c = None -> quizzerDatabase st = true) ->
  (is_Some (collectionSet st !! c) -> is_Some (quizSet st !! c)) ->
  head (faults (mongo st)) <> Some true ->
  exists st',
    insertNewWord c w m st =
      (Resolved (mkInserted c (normalizeWord w)
                   (normalizeMeaning (mergeMeaning (existingMeaningOf st c w) m))),
       st').
Proof.
  intros Ic Iw Hdb Hq Hf.
  destruct (insertNewWord_resolves c w m st Ic Iw Hdb Hq Hf) as (r & st' & Hr).
  exists st'. rewrite Hr.
  now apply insertNewWord_post in Hr as (-> & _).
Qed.

Lemma insertNewWord_succeeds_witness :
  exists st',
    insertNewWord "plants" "oak" "a tree" (opened sampleStore) =
      (Resolved (mkInserted "plants" (normalizeWord "oak")
                   (normalizeMeaning
                      (mergeMeaning (existingMeaningOf (opened sampleStore) "plants" "oak")
                         "a tree"))),
       st').
Proof.
  apply (insertNewWord_succeeds "plants" "oak" "a tree" (opened sampleStore));
    try reflexivity.
  - intros [h Hh]. vm_compute in Hh. discriminate.
  - vm_compute. discriminate.
Defined.

(** X11.  A collection named like a member of [Object.prototype]
    ([constructor], [toString], [__proto__], ...) that has no handle of its
    own cannot be written to: [collectionSet[name]] is not [null], nothing
    is registered, and the call rejects with a TypeError and changes
    nothing. *)
Theorem insertNewWord_prototype_collection (c w m : string) (st : State) :
  inherited c = true ->
  collectionSet st !! c = None -> quizSet st !! c = None ->
  insertNewWord c w m st = (Rejected TypeError, st).
Proof.
  intros Ic Hh Hq. unfold insertNewWord, ensureCollection, readExisting, js_get. async.
  rewrite Hh, Ic. simpl. now rewrite Hq.
Qed.

Lemma insertNewWord_prototype_collection_witness :
  insertNewWord "constructor" "cat" "neko" (opened sampleStore) =
    (Rejected TypeError, opened sampleStore).
Proof.
  apply insertNewWord_prototype_collection; vm_compute; reflexivity.
Defined.

(** X12.  In a cached collection, a word that is the name of a member of
    [Object.prototype] and is not yet a word of the collection cannot be
    inserted as it stands: line 93 reads the inherited member, line 94 calls
    [toLowerCase] on it, and the call rejects with a TypeError and changes
    nothing. *)
Theorem insertNewWord_prototype_word
    (c w m : string) (st : State) (h : Collection) (entries : gmap string string) :
  inherited w = true ->
  collectionSet st !! c = Some h -> quizSet st !! c = Some entries ->
  entries !! w = None ->
  insertNewWord c w m st = (Rejected TypeError, st).
Proof.
  intros Iw Hh Hq Hw. unfold insertNewWord, ensureCollection, readExisting, js_get. async.
  rewrite Hh. simpl. now rewrite Hq, Hw, Iw.
Qed.

Lemma insertNewWord_prototype_word_witness :
  insertNewWord "animals" "constructor" "one who builds" (opened sampleStore) =
    (Rejected TypeError, opened sampleStore).
Proof.
  apply (insertNewWord_prototype_word "animals" "constructor" "one who builds"
           (opened sampleStore) Handle
           (<["cat" := "neko"]> (<["dog" := "inu"]> ∅)));
    vm_compute; reflexivity.
Defined.

(** The same word with a space before it is accepted, and is then a word
    of the collection like any other. *)
Example insertNewWord_prototype_word_spaced :
  fst (insertNewWord "animals" " constructor" "one who builds" (opened sampleStore)) =
    Resolved (mkInserted "animals" "constructor" "one who builds") /\
  fst (insertNewWord "animals" "constructor" "a builder"
         (snd (insertNewWord "animals" " constructor" "one who builds"
                 (opened sampleStore)))) =
    Resolved (mkInserted "animals" "constructor" "one who builds / a builder").
Proof. split; vm_compute; reflexivity. Qed.

(** X13.  A collection that has its handle and no cache entry, as
    [UserBase] and [_Root] have after the start-up, takes no word: line 93
    reads a property of [undefined], and the call rejects with a TypeError
    and changes nothing. *)
Theorem insertNewWord_uncached_collection
    (c w m : string) (st : State) (h : Collection) :
  inherited c = false ->
  collectionSet st !! c = Some h -> quizSet st !! c = None ->
  insertNewWord c w m st = (Rejected TypeError, st).
Proof.
  intros Ic Hh Hq. unfold insertNewWord, ensureCollection, readExisting, js_get. async.
  rewrite Hh. simpl. now rewrite Hq, Ic.
Qed.

Lemma insertNewWord_uncached_collection_witness :
  insertNewWord "UserBase" "cat" "neko" (opened sampleStore) =
    (Rejected TypeError, opened sampleStore).
Proof.
  apply (insertNewWord_uncached_collection "UserBase" "cat" "neko"
           (opened sampleStore) Handle); vm_compute; reflexivity.
Defined.

(** *** What a call leaves alone *)

Lemma findOne_upsert_ne (w w' m : string) (docs : list WordDoc) :
  w' <> w -> findOne w' (upsert w m docs) = findOne w' docs.
Proof.
  intros N. induction docs as [|d docs IH]; cbn [upsert findOne].
  - apply String.eqb_neq in N. rewrite String.eqb_sym in N.
    cbn [doc_word]. now rewrite N.
  - destruct (String.eqb_spec (doc_word d) w) as [E|N'].
    + cbn [findOne doc_word].
      assert (Hw : String.eqb w w' = false)
        by (apply String.eqb_neq; congruence).
      rewrite Hw. rewrite E.
      now rewrite Hw.
    + cbn [findOne]. now rewrite IH.
Qed.

Lemma cachedMeaning_registered (c c' w' : string) (st : State) :
  consistent st ->
  cachedMeaning (registered c st) c' w' = cachedMeaning st c' w'.
Proof.
  intros Hc. unfold registered, cachedMeaning, getQuizSet.
  destruct (js_get (collectionSet st) c) eqn:E; try reflexivity.
  cbn [quizSet set_quizSet set_collectionSet].
  destruct (decide (c = c')) as [<-|N].
  - rewrite lookup_insert_eq, (consistent_absent c st Hc E). simpl.
    apply lookup_empty.
  - now rewrite lookup_insert_ne.
Qed.

Lemma insertNewWord_elsewhere
    (c w m : string) (st st' : State) (r : Inserted) (c' w' : string) :
  consistent st ->
  insertNewWord c w m st = (Resolved r, st') ->
  c' <> c \/ w' <> normalizeWord w ->
  cachedMeaning st' c' w' = cachedMeaning st c' w' /\
  storedMeaning (mongo st') c' w' = storedMeaning (mongo st) c' w'.
Proof.
  intros Hcons Hr Hother.
  apply insertNewWord_inv in Hr as (entries & Hq & _ & HQ & _ & _ & Hm).
  split.
  - rewrite <- (cachedMeaning_registered c c' w' st Hcons).
    unfold cachedMeaning, getQuizSet. rewrite HQ.
    destruct (decide (c = c')) as [<-|N].
    + rewrite lookup_insert_eq, Hq. simpl.
      destruct Hother as [N|N]; [congruence|].
      now rewrite lookup_insert_ne by congruence.
    + now rewrite lookup_insert_ne.
  - unfold storedMeaning, documents. rewrite Hm.
    destruct (decide (c = c')) as [<-|N].
    + rewrite lookup_insert_eq. simpl.
      destruct Hother as [N|N]; [congruence|].
      now apply findOne_upsert_ne.
    + now rewrite lookup_insert_ne.
Qed.

(** X14.  A call that resolves touches one place only: in the cache and
    in the store, every other word of the collection and every word of any
    other collection has the meaning it had. *)
Theorem insertNewWord_frame
    (c w m : string) (st st' : State) (r : Inserted) (c' w' : string) :
  consistent st ->
  insertNewWord c w m st = (Resolved r, st') ->
  c' <> c \/ w' <> normalizeWord w ->
  cachedMeaning st' c' w' = cachedMeaning st c' w' /\
  storedMeaning (mongo st') c' w' = storedMeaning (mongo st) c' w'.
Proof. apply insertNewWord_elsewhere. Qed.

Lemma insertNewWord_frame_witness :
  cachedMeaning (snd (insertNewWord "animals" "cat" "feline" (opened sampleStore)))
    "animals" "dog" =
  cachedMeaning (opened sampleStore) "animals" "dog".
Proof.
  apply (insertNewWord_frame "animals" "cat" "feline" (opened sampleStore) _
           (mkInserted "animals" "cat" "neko / feline") "animals" "dog").
  - apply consistent_opened.
  - vm_compute. reflexivity.
  - right. vm_compute. discriminate.
Defined.

(** *** The cache mirrors the store *)

Lemma insertNewWord_rejected (c w m : string) (st st' : State) (e : exn) :
  insertNewWord c w m st = (Rejected e, st') ->
  collections (mongo st') = collections (mongo st) /\
  (quizSet st' = quizSet st \/ quizSet st' = quizSet (registered c st)).
Proof.
  unfold insertNewWord, ensureCollection, readExisting, updateOne, registered.
  async. repeat case_match; simplify_eq/=; intros; simplify_eq/=; eauto.
Qed.

Lemma mirrored_insertNewWord (c w m : string) (st : State) :
  consistent st -> mirrored st -> mirrored (snd (insertNewWord c w m st)).
Proof.
  intros Hcons Hmir.
  destruct (insertNewWord c w m st) as [[r|e] st'] eqn:E; cbn [snd].
  - intros c' w' x Hx.
    destruct (decide (c' = c /\ w' = normalizeWord w)) as [[-> ->]|N].
    + apply insertNewWord_post in E as (_ & Hc & Hs & _). congruence.
    + assert (Hother : c' <> c \/ w' <> normalizeWord w).
      { destruct (decide (c' = c)); [right | now left]. intros ->. now apply N. }
      destruct (insertNewWord_elsewhere c w m st st' r c' w' Hcons E Hother) as [Hc Hs].
      rewrite Hs. apply Hmir. now rewrite <- Hc.
  - apply insertNewWord_rejected in E as (Hm & HQ).
    intros c' w' x Hx. unfold storedMeaning, documents. rewrite Hm.
    apply Hmir. destruct HQ as [HQ|HQ].
    + unfold cachedMeaning, getQuizSet in *. now rewrite <- HQ.
    + rewrite <- (cachedMeaning_registered c c' w' st Hcons).
      unfold cachedMeaning, getQuizSet in *. now rewrite <- HQ.
Qed.

Lemma invariants_insertPairs (c : string) (pairs : list WordDoc) (st : State) :
  consistent st /\ mirrored st ->
  consistent (snd (insertPairs c pairs st)) /\ mirrored (snd (insertPairs c pairs st)).
Proof.
  revert st. induction pairs as [|wm rest IH]; intros st [Hc Hm]; [now split|].
  cbn [insertPairs]. unfold bind.
  pose proof (consistent_insertNewWord c (doc_word wm) (doc_meaning wm) st Hc) as Hc1.
  pose proof (mirrored_insertNewWord c (doc_word wm) (doc_meaning wm) st Hc Hm) as Hm1.
  destruct (insertNewWord c (doc_word wm) (doc_meaning wm) st) as [[r|e] st1];
    cbn [snd] in *; [now apply IH | now split].
Qed.

(** X15.  The cache never gives a meaning the store does not give: if,
    before a call of [insertNewWord] or of [insertWordsFromFile], every
    cached meaning is the stored meaning of its word (and every cached
    collection has its handle), it is so after the call, whether the call
    resolves or rejects. *)
Theorem mirror_kept
    (c w m : string) (wordMeaningArray : list WordDoc) (st : State) :
  consistent st -> mirrored st ->
  (consistent (snd (insertNewWord c w m st)) /\
   mirrored (snd (insertNewWord c w m st))) /\
  (consistent (snd (insertWordsFromFile wordMeaningArray c st)) /\
   mirrored (snd (insertWordsFromFile wordMeaningArray c st))).
Proof.
  intros Hc Hm. split.
  - split; [now apply consistent_insertNewWord | now apply mirrored_insertNewWord].
  - now apply invariants_insertPairs.
Qed.

Lemma loadCollections_cache_any (names : list string) (st : State) (c : string) :
  quizSet (snd (loadCollections names st)) !! c = quizSet st !! c \/
  quizSet (snd (loadCollections names st)) !! c =
    Some (loadDocuments (documents (mongo st) c) ∅).
Proof.
  revert st. induction names as [|name rest IH]; intros st; [now left|].
  rewrite loadCollections_cons.
  pose proof (loadCollection_mongo name st) as Hm.
  destruct (loadCollection_cases name st) as [[-> E]|[[-> E]|(N1 & N2 & E)]];
    rewrite E in Hm |- *.
  - destruct (initializer (mongo st)); [|now left]. cbn [snd] in Hm.
    destruct (IH (set_root i (set_collectionSet (insert "_Root" Handle) st)))
      as [H|H]; rewrite H; [now left | right; now rewrite Hm].
  - cbn [snd] in Hm.
    destruct (IH (set_collectionSet (insert "UserBase" Handle) st))
      as [H|H]; rewrite H; [now left | right; now rewrite Hm].
  - cbn [snd] in Hm.
    match goal with
    | |- context [loadCollections rest ?s] => destruct (IH s) as [H|H]; rewrite H
    end.
    + cbn [quizSet set_quizSet set_collectionSet].
      destruct (decide (name = c)) as [->|N];
        [right; apply lookup_insert_eq | left; now apply lookup_insert_ne].
    + right. now rewrite Hm.
Qed.

Lemma opened_mirrored (m : Mongo) :
  (forall c docs, collections m !! c = Some docs -> NoDup (words docs)) ->
  consistent (opened m) /\ mirrored (opened m).
Proof.
  intros Hnd. split; [apply consistent_opened|].
  rewrite opened_unfold. intros c w x Hx.
  assert (Hmongo : mongo (snd (loadCollections (listCollections m)
                                 (set_quizzerDatabase true (initial m)))) = m)
    by apply WordStore.loadCollections_version.
  unfold storedMeaning. rewrite Hmongo.
  unfold cachedMeaning, getQuizSet in Hx.
  destruct (loadCollections_cache_any (listCollections m)
              (set_quizzerDatabase true (initial m)) c) as [H|H];
    rewrite H in Hx; simpl in Hx.
  - now rewrite lookup_empty in Hx.
  - destruct (decide (w = "__proto__")) as [->|Hw].
    + exfalso. revert Hx. generalize (documents m c). intros docs.
      assert (Hp : forall acc, acc !! "__proto__" = None ->
                loadDocuments docs acc !! "__proto__" = None).
      { unfold loadDocuments. induction docs as [|d docs IH]; intros acc Ha;
          [exact Ha|]. cbn [fold_left]. apply IH. unfold js_set.
        destruct (String.eqb_spec (doc_word d) "__proto__") as [E|N]; [exact Ha|].
        now rewrite lookup_insert_ne. }
      rewrite Hp by apply lookup_empty. discriminate.
    + rewrite loadDocuments_lookup, lookup_empty in Hx by exact Hw.
      rewrite findOne_rev_nodup in Hx.
      * now destruct (findOne w (documents m c)).
      * unfold documents. destruct (collections m !! c) as [docs|] eqn:Hc;
          [now apply (Hnd c) | constructor].
Qed.

(** X16.  After the connection, every meaning of the cache is the
    meaning the store gives for the word, provided no collection of the
    store has two records of one word. *)
Theorem mirror_opened (m : Mongo) :
  (forall c docs, collections m !! c = Some docs -> NoDup (words docs)) ->
  consistent (opened m) /\ mirrored (opened m).
Proof. apply opened_mirrored. Qed.

Lemma sampleStore_nodup (c : string) (docs : list WordDoc) :
  collections sampleStore !! c = Some docs -> NoDup (words docs).
Proof.
  intros Hc.
  destruct (decide (c = "animals")) as [->|N1].
  { vm_compute in Hc. injection Hc as <-. unfold words. cbn [map doc_word].
    repeat constructor; rewrite ?elem_of_cons, ?elem_of_nil; intuition discriminate. }
  destruct (decide (c = "_Root")) as [->|N2].
  { vm_compute in Hc. injection Hc as <-. constructor. }
  destruct (decide (c = "UserBase")) as [->|N3].
  { vm_compute in Hc. injection Hc as <-. constructor. }
  unfold sampleStore in Hc. cbn [collections] in Hc.
  rewrite !lookup_insert_ne, lookup_empty in Hc by congruence. discriminate.
Qed.

Lemma sampleStore_invariants :
  consistent (opened sampleStore) /\ mirrored (opened sampleStore).
Proof. apply opened_mirrored, sampleStore_nodup. Qed.

Lemma mirror_opened_witness :
  consistent (opened sampleStore) /\ mirrored (opened sampleStore).
Proof. apply (mirror_opened sampleStore), sampleStore_nodup. Defined.

Lemma mirror_kept_witness :
  mirrored (snd (insertNewWord "animals" "cat" "feline" (opened sampleStore))).
Proof.
  destruct sampleStore_invariants as [Hc Hm].
  apply (mirror_kept "animals" "cat" "feline" [] (opened sampleStore) Hc Hm).
Defined.

(** *** Bulk insertion in two parts *)

(** X17.  Inserting a list of pairs is inserting a first part and then,
    if that resolved, the rest, from the state the first part left; when a
    pair of the first part is rejected, the pairs before it stay inserted
    and nothing of the rest is tried. *)
Theorem insertWordsFromFile_app (first rest : list WordDoc) (c : string) (st : State) :
  insertWordsFromFile (first ++ rest) c st =
  match insertWordsFromFile first c st with
  | (Resolved _, st1) => insertWordsFromFile rest c st1
  | (Rejected e, st1) => (Rejected e, st1)
  end.
Proof.
  unfold insertWordsFromFile. revert st.
  induction first as [|wm first IH]; intros st; [reflexivity|].
  cbn [app insertPairs]. unfold bind.
  destruct (insertNewWord c (doc_word wm) (doc_meaning wm) st) as [[r|e] st1];
    [apply IH | reflexivity].
Qed.

Example insertWordsFromFile_partial :
  fst (insertWordsFromFile
         [mkWordDoc "oak" "a tree"; mkWordDoc "constructor" "a builder";
          mkWordDoc "elm" "a tree"] "plants" (opened emptyStore)) =
    Rejected TypeError /\
  cachedMeaning
    (snd (insertWordsFromFile
            [mkWordDoc "oak" "a tree"; mkWordDoc "constructor" "a builder";
             mkWordDoc "elm" "a tree"] "plants" (opened emptyStore)))
    "plants" "oak" = Some "a tree" /\
  cachedMeaning
    (snd (insertWordsFromFile
            [mkWordDoc "oak" "a tree"; mkWordDoc "constructor" "a builder";
             mkWordDoc "elm" "a tree"] "plants" (opened emptyStore)))
    "plants" "elm" = None.
Proof. repeat split; vm_compute; reflexivity. Qed.

End StoreMore.

(** ** The connection string and the user records *)
Module DBHandlerRestFacts.
Import JS DBHandler DBHandlerRest TextSpec TextFacts DBHandlerFacts LoadFacts.

(** *** mongoUrl *)

Lemma lowerChar_plain (c : ascii) :
  Ascii.eqb c " " = false ->
  negb (Ascii.eqb (lowerChar c) " ") && negb (isUpper (lowerChar c)) = true.
Proof. destruct c as [[] [] [] [] [] [] [] []]; intros E; try reflexivity; discriminate E. Qed.

Lemma lowerChar_space (c : ascii) :
  Ascii.eqb (lowerChar c) " " = Ascii.eqb c " ".
Proof. destruct c as [[] [] [] [] [] [] [] []]; reflexivity. Qed.

Lemma removeSpaces_toLowerCase (s : string) :
  removeSpaces (toLowerCase s) = toLowerCase (removeSpaces s).
Proof.
  induction s as [|c s IH]; [reflexivity|]. cbn [toLowerCase removeSpaces].
  rewrite lowerChar_space. destruct (Ascii.eqb c " "); [exact IH|].
  cbn [toLowerCase]. now rewrite IH.
Qed.

Lemma removeSpaces_idem (s : string) : removeSpaces (removeSpaces s) = removeSpaces s.
Proof.
  induction s as [|c s IH]; [reflexivity|]. cbn [removeSpaces].
  destruct (Ascii.eqb c " ") eqn:E; [exact IH|]. cbn [removeSpaces].
  now rewrite E, IH.
Qed.

(** X18.  [mongoUrl] exists exactly when [DBClusterName] is set.  The
    cluster name goes into it without any space and without upper-case
    letters, so that names which differ by spaces or letter case only give
    the same URL, and a name already in that form is used as it is. *)
Theorem mongoUrl_cluster (env : gmap string string) (cluster : string) :
  (is_Some (mongoUrl env) <-> is_Some (env !! "DBClusterName")) /\
  allChars (fun c => negb (Ascii.eqb c " ") && negb (isUpper c)) (clusterHost cluster)
    = true /\
  clusterHost (clusterHost cluster) = clusterHost cluster /\
  mongoUrl (<["DBClusterName" := clusterHost cluster]> env) =
    mongoUrl (<["DBClusterName" := cluster]> env).
Proof.
  split; [|split; [|split]].
  - unfold mongoUrl. destruct (env !! "DBClusterName"); split; intros [x Hx];
      try discriminate; eexists; reflexivity.
  - unfold clusterHost. induction cluster as [|c s IH]; [reflexivity|].
    cbn [removeSpaces]. destruct (Ascii.eqb c " ") eqn:E; [exact IH|].
    cbn [toLowerCase allChars]. now rewrite lowerChar_plain, IH.
  - unfold clusterHost.
    now rewrite removeSpaces_toLowerCase, removeSpaces_idem, TextMore.toLowerCase_idem.
  - assert (Hidem : clusterHost (clusterHost cluster) = clusterHost cluster).
    { unfold clusterHost.
      now rewrite removeSpaces_toLowerCase, removeSpaces_idem, TextMore.toLowerCase_idem. }
    unfold mongoUrl, envText. rewrite !lookup_insert_eq.
    rewrite !lookup_insert_ne by discriminate. now rewrite Hidem.
Qed.

Example mongoUrl_sample :
  mongoUrl (<["DBUsername" := "quiz"]> (<["DBPassword" := "pw"]>
             (<["DBClusterName" := "My Cluster 0"]> (<["DBName" := "Quizzer"]> ∅)))) =
  Some "mongodb+srv://quiz:pw@mycluster0.zm0r5.mongodb.net/Quizzer".
Proof. vm_compute. reflexivity. Qed.

(** *** saveUserData and getUserData *)

Lemma findUser_upsertUser (userMail : string) (options : UserFields)
      (docs : list UserRecord) :
  findUser userMail (upsertUser userMail options docs) =
    Some (mkUserRecord userMail
            match findUser userMail docs with
            | Some d => assign options (rec_fields d)
            | None => options
            end).
Proof.
  induction docs as [|d docs IH]; cbn [upsertUser findUser].
  - cbn [rec_userMail]. now rewrite String.eqb_refl.
  - destruct (String.eqb (rec_userMail d) userMail) eqn:E; cbn [findUser rec_userMail].
    + now rewrite String.eqb_refl.
    + now rewrite E.
Qed.

Lemma findUser_upsertUser_ne (userMail other : string) (options : UserFields)
      (docs : list UserRecord) :
  other <> userMail ->
  findUser other (upsertUser userMail options docs) = findUser other docs.
Proof.
  intros N. assert (Hn : String.eqb userMail other = false)
    by (apply String.eqb_neq; congruence).
  induction docs as [|d docs IH]; cbn [upsertUser findUser].
  - cbn [rec_userMail]. now rewrite Hn.
  - destruct (String.eqb_spec (rec_userMail d) userMail) as [E|N'];
      cbn [findUser rec_userMail].
    + now rewrite E, Hn.
    + now rewrite IH.
Qed.

Lemma assign_idem (options old : UserFields) :
  assign options (assign options old) = assign options old.
Proof.
  destruct options as [[?|] [?|] [?|] [?|]]; reflexivity.
Qed.

Lemma upsertUser_idem (userMail : string) (options : UserFields)
      (docs : list UserRecord) :
  upsertUser userMail options (upsertUser userMail options docs) =
  upsertUser userMail options docs.
Proof.
  induction docs as [|d docs IH]; cbn [upsertUser].
  - cbn [rec_userMail rec_fields]. rewrite String.eqb_refl. f_equal. f_equal.
    destruct options as [[?|] [?|] [?|] [?|]]; reflexivity.
  - destruct (String.eqb (rec_userMail d) userMail) eqn:E; cbn [upsertUser rec_userMail].
    + rewrite String.eqb_refl. cbn [rec_fields]. now rewrite assign_idem.
    + now rewrite E, IH.
Qed.

Lemma saveUserData_resolved (userMail : string) (options : UserFields) (db db1 : Db) :
  saveUserData userMail options db = (Resolved tt, db1) ->
  userBase db1 = upsertUser userMail options (userBase db) /\
  collectionSet (vars db1) = collectionSet (vars db) /\
  readFaults db1 = readFaults db.
Proof.
  unfold saveUserData.
  destruct (js_get (collectionSet (vars db)) "UserBase"); try discriminate.
  destruct (faults (mongo (vars db))) as [|[] fs]; try discriminate;
    intros [= <-]; auto.
Qed.

(** X19.  What [saveUserData] has saved, [getUserData] gives back: the
    record of the address carries the properties that were passed, and, for
    an address that had a record, keeps the properties that were not
    passed. *)
Theorem saveUserData_then_getUserData
    (userMail : string) (options : UserFields) (db db1 db2 : Db)
    (got : option UserRecord) :
  saveUserData userMail options db = (Resolved tt, db1) ->
  getUserData userMail db1 = (Resolved got, db2) ->
  got = Some (mkUserRecord userMail
                match findUser userMail (userBase db) with
                | Some d => assign options (rec_fields d)
                | None => options
                end).
Proof.
  intros Hs Hg. apply saveUserData_resolved in Hs as (Hu & _ & _).
  revert Hg. unfold getUserData.
  destruct (js_get (collectionSet (vars db1)) "UserBase"); try discriminate.
  destruct (readFaults db1) as [|[] fs]; try discriminate;
    intros [= <- _]; rewrite Hu; apply findUser_upsertUser.
Qed.

(** A server with the sample store, one user known by a password hash. *)
Lemma saveUserData_then_getUserData_witness :
  fst (getUserData "a@b.com"
         (snd (saveUserData "a@b.com"
                 (mkUserFields None (Some true) (Some "sid") (Some 1800000%Z))
                 (mkDb (opened sampleStore)
                       [mkUserRecord "a@b.com" (mkUserFields (Some "hash") None None None)]
                       [])))) =
  Resolved (Some (mkUserRecord "a@b.com"
                    (mkUserFields (Some "hash") (Some true) (Some "sid")
                       (Some 1800000%Z)))).
Proof.
  pose (db := mkDb (opened sampleStore)
                [mkUserRecord "a@b.com" (mkUserFields (Some "hash") None None None)] []).
  pose (options := mkUserFields None (Some true) (Some "sid") (Some 1800000%Z)).
  rewrite (saveUserData_then_getUserData "a@b.com" options db
             (snd (saveUserData "a@b.com" options db))
             (snd (getUserData "a@b.com" (snd (saveUserData "a@b.com" options db))))
             (Some (mkUserRecord "a@b.com"
                      (mkUserFields (Some "hash") (Some true) (Some "sid")
                         (Some 1800000%Z))))).
  - vm_compute. reflexivity.
  - vm_compute. reflexivity.
  - vm_compute. reflexivity.
Defined.

(** X20.  [saveUserData], whatever its outcome, changes nothing but the
    record of the address it is given: the record [getUserData] finds for
    any other address, the quiz cache, the version token, the handles and
    the word records of the store are as before. *)
Theorem saveUserData_frame
    (userMail other : string) (options : UserFields) (db : Db) :
  other <> userMail ->
  findUser other (userBase (snd (saveUserData userMail options db))) =
    findUser other (userBase db) /\
  getQuizSet (vars (snd (saveUserData userMail options db))) = getQuizSet (vars db) /\
  getQuizSetVersion (vars (snd (saveUserData userMail options db))) =
    getQuizSetVersion (vars db) /\
  collectionSet (vars (snd (saveUserData userMail options db))) =
    collectionSet (vars db) /\
  collections (mongo (vars (snd (saveUserData userMail options db)))) =
    collections (mongo (vars db)).
Proof.
  intros N. unfold saveUserData.
  destruct (js_get (collectionSet (vars db)) "UserBase"); try (now repeat split).
  destruct (faults (mongo (vars db))) as [|[] fs]; cbn [snd userBase vars];
    repeat split; try reflexivity; now apply findUser_upsertUser_ne.
Qed.

Lemma saveUserData_frame_witness :
  findUser "c@d.org"
    (userBase (snd (saveUserData "a@b.com" (mkUserFields (Some "h2") None None None)
                      (mkDb (opened sampleStore)
                            [mkUserRecord "c@d.org" (mkUserFields (Some "h") None None None)]
                            [])))) =
  findUser "c@d.org" [mkUserRecord "c@d.org" (mkUserFields (Some "h") None None None)].
Proof.
  apply (saveUserData_frame "a@b.com" "c@d.org" (mkUserFields (Some "h2") None None None)
           (mkDb (opened sampleStore)
                 [mkUserRecord "c@d.org" (mkUserFields (Some "h") None None None)] [])).
  discriminate.
Defined.

Lemma loadCollections_handle_unlisted (names : list string) (st : State) (c : string) :
  c ∉ names ->
  collectionSet (snd (loadCollections names st)) !! c = collectionSet st !! c.
Proof.
  revert st. induction names as [|name rest IH]; intros st Hc; [reflexivity|].
  apply not_elem_of_cons in Hc as [N Hc].
  rewrite loadCollections_cons.
  destruct (loadCollection_cases name st) as [[-> E]|[[-> E]|(N1 & N2 & E)]];
    rewrite E; try destruct (initializer (mongo st)); cbn [snd];
    rewrite ?IH by exact Hc; cbn [collectionSet set_root set_quizSet set_collectionSet];
    now apply lookup_insert_ne.
Qed.

(** X21.  When the store has no collection ["UserBase"] as the server
    starts, no handle is registered under that name, and [saveUserData] and
    [getUserData] reject with a TypeError and change nothing: users can be
    neither saved nor read. *)
Theorem userBase_missing
    (m : Mongo) (userMail : string) (options : UserFields)
    (records : list UserRecord) (rf : list bool) :
  collections m !! "UserBase" = None ->
  saveUserData userMail options (mkDb (opened m) records rf) =
    (Rejected TypeError, mkDb (opened m) records rf) /\
  getUserData userMail (mkDb (opened m) records rf) =
    (Rejected TypeError, mkDb (opened m) records rf).
Proof.
  intros Hc.
  assert (Hh : collectionSet (opened m) !! "UserBase" = None).
  { rewrite opened_unfold, loadCollections_handle_unlisted; [apply lookup_empty|].
    rewrite listCollections_elem, Hc. now intros [x Hx]. }
  unfold saveUserData, getUserData, js_get. cbn [vars]. rewrite Hh. split; reflexivity.
Qed.

Lemma userBase_missing_witness :
  saveUserData "a@b.com" (mkUserFields (Some "hash") (Some false) None None)
    (mkDb (opened emptyStore) [] []) =
  (Rejected TypeError, mkDb (opened emptyStore) [] []).
Proof.
  apply (userBase_missing emptyStore "a@b.com"
           (mkUserFields (Some "hash") (Some false) None None) [] []).
  reflexivity.
Defined.

(** X22.  Saving the same properties for the same address a second time
    leaves the user records as the first time left them. *)
Theorem saveUserData_twice
    (userMail : string) (options : UserFields) (db db1 db2 : Db) :
  saveUserData userMail options db = (Resolved tt, db1) ->
  saveUserData userMail options db1 = (Resolved tt, db2) ->
  userBase db2 = userBase db1.
Proof.
  intros H1 H2. apply saveUserData_resolved in H1 as (E1 & _ & _).
  apply saveUserData_resolved in H2 as (E2 & _ & _).
  rewrite E2, E1. apply upsertUser_idem.
Qed.

Lemma saveUserData_twice_witness :
  userBase (snd (saveUserData "a@b.com" (mkUserFields (Some "h") None None None)
              (snd (saveUserData "a@b.com" (mkUserFields (Some "h") None None None)
                      (mkDb (opened sampleStore) [] []))))) =
  userBase (snd (saveUserData "a@b.com" (mkUserFields (Some "h") None None None)
                   (mkDb (opened sampleStore) [] []))).
Proof.
  apply (saveUserData_twice "a@b.com" (mkUserFields (Some "h") None None None)
           (mkDb (opened sampleStore) [] [])); vm_compute; reflexivity.
Defined.

End DBHandlerRestFacts.

(** ** The gateway: answers, refusals, and sequences of events *)
Module SocketFacts.
Import JS DBHandler DBHandlerRest Gateway Sockets DBHandlerFacts StoreMore.

Section WithUserHandler.
Context {U : Type} `{UserHandler U}.

(** *** userLogin *)

Lemma userLogin_db (socketId : string) (credentials : Payload) (p : @Process U) :
  fst (snd (userLogin socketId credentials p)) = fst p.
Proof.
  destruct p as [st g]. unfold userLogin. repeat case_match; reflexivity.
Qed.

(** X23.  Every login event is answered: with one [loginUnsuccessful],
    or with one [loginSuccess] carrying a successful result, which only
    [adminPrivilegeGranted] can follow. *)
Theorem userLogin_answered (socketId : string) (credentials : Payload) (p : @Process U) :
  (exists why, fst (userLogin socketId credentials p) = [loginUnsuccessful why]) \/
  (exists r, success r = true /\
     (fst (userLogin socketId credentials p) = [loginSuccess r] \/
      fst (userLogin socketId credentials p) = [loginSuccess r; adminPrivilegeGranted])).
Proof.
  destruct p as [st g]. unfold userLogin.
  repeat case_match; simplify_eq/=; eauto 8.
Qed.

(** X24.  A login or a signup event whose payload is [null], has no
    [userMail], or has one that is not a valid address, is answered with the
    reason ["Invalid UserMail"], and nothing changes: no function of the
    user handler is called. *)
Theorem invalid_mail_refused (socketId : string) (credentials : Payload) (p : @Process U) :
  match credentials with
  | None => True
  | Some fields => validateUserMail (field fields "userMail") = None
  end ->
  userLogin socketId credentials p = ([loginUnsuccessful "Invalid UserMail"], p) /\
  userSignup credentials p = ([signupUnsuccessful "Invalid UserMail"], p).
Proof.
  destruct p as [st g]. unfold userLogin, userSignup.
  destruct credentials as [fields|]; [intros ->|]; now split.
Qed.

(** X25.  A signup event with a valid address but without a string for
    the password or for the site is dropped: nothing is emitted, not even a
    refusal, nothing is called and nothing changes. *)
Theorem userSignup_dropped
    (fields : gmap string value) (p : @Process U) (userMail : string) :
  validateUserMail (field fields "userMail") = Some userMail ->
  isString (field fields "password") && isString (field fields "websiteURL") = false ->
  userSignup (Some fields) p = ([], p).
Proof.
  destruct p as [st g]. unfold userSignup. intros -> Hs.
  destruct (field fields "password"); try reflexivity;
    destruct (field fields "websiteURL"); try reflexivity; discriminate.
Qed.

(** *** addNewWord *)

(** X26.  An [addNewWord] event whose payload lacks a string for the
    collection, for the word or for the meaning is dropped, from an admin as
    from anyone: nothing is emitted and nothing changes. *)
Theorem addNewWord_dropped
    (socketId : string) (fields : gmap string value) (p : @Process U) :
  isString (field fields "collectionName") && isString (field fields "word")
    && isString (field fields "meaning") = false ->
  addNewWord socketId (Some fields) p = ([], p).
Proof.
  destruct p as [st g]. unfold addNewWord. intros Hs.
  destruct (hasAdminPrivileges socketId (users g)); [|reflexivity].
  destruct (field fields "collectionName"); try reflexivity;
    destruct (field fields "word"); try reflexivity;
    destruct (field fields "meaning"); try reflexivity; discriminate.
Qed.

(** X27.  When an admin's [addNewWord] is answered with [addWordSuccess],
    a snapshot asked for next ([sendQuizSet]) has, in the collection and
    under the word of the answer, the meaning of the answer; its version
    token is the one of before the insertion. *)
Theorem addNewWord_then_sendQuizSet
    (socketId : string) (data : Payload) (p : @Process U) (r : Inserted) :
  fst (addNewWord socketId data p) = [addWordSuccess r] ->
  exists snapshot,
    fst (sendQuizSet (snd (addNewWord socketId data p))) =
      [latestQuizSet (getQuizSetVersion (fst p)) snapshot] /\
    snapshot !! ins_collectionName r ≫= (.!! ins_word r) = Some (ins_meaning r).
Proof.
  destruct p as [st g]. unfold addNewWord, sendQuizSet. cbn [fst snd].
  destruct (hasAdminPrivileges socketId (users g)); [|discriminate].
  destruct data as [fields|]; [|discriminate].
  destruct (field fields "collectionName") as [| | |c|]; try discriminate.
  destruct (field fields "word") as [| | |w|]; try discriminate.
  destruct (field fields "meaning") as [| | |m|]; try discriminate.
  pose proof (WordStore.insertNewWord_version c w m st) as Hv.
  destruct (insertNewWord c w m st) as [[r'|e] st'] eqn:E; [|discriminate].
  cbn [fst snd] in *. intros [= ->].
  exists (getQuizSet st'). split; [unfold getQuizSetVersion; now rewrite Hv|].
  apply insertNewWord_post in E as (-> & Hc & _). exact Hc.
Qed.

(** *** Sequences of events *)

Lemma handle_db (e : Inbound) (p : @Process U) :
  fst (snd (handle e p)) = fst p \/
  exists c w m, fst (snd (handle e p)) = snd (insertNewWord c w m (fst p)).
Proof.
  destruct p as [st g]. destruct e; cbn [handle fst snd]; try (now left).
  - left. apply (userLogin_db socketId credentials (st, g)).
  - left. unfold userSignup. repeat case_match; reflexivity.
  - unfold addNewWord. repeat case_match; simplify_eq/=; eauto;
      right; eexists _, _, _;
      match goal with H : insertNewWord _ _ _ _ = _ |- _ => now rewrite H end.
Qed.

Lemma handle_listening (e : Inbound) (p : @Process U) :
  listening (snd (snd (handle e p))) = listening (snd p) \/
  (listening (snd (snd (handle e p))) = false /\
   uncaught (snd (snd (handle e p))) = Some TypeError).
Proof.
  destruct p as [st g].
  destruct e; cbn [handle fst snd]; try (now left);
    unfold userLogin, userSignup, addNewWord; repeat case_match; simpl; auto.
Qed.

Lemma handle_uncaught (e : Inbound) (p : @Process U) :
  uncaught (snd (snd (handle e p))) = None -> uncaught (snd p) = None.
Proof.
  destruct p as [st g].
  destruct e; cbn [handle fst snd]; try (now auto);
    unfold userLogin, userSignup, addNewWord; repeat case_match; simpl;
    auto; discriminate.
Qed.

Lemma handle_activeUsers (e : Inbound) (p : @Process U) :
  activeUsers (snd (snd (handle e p))) = (activeUsers (snd p) + balance [e])%Z.
Proof.
  destruct p as [st g].
  destruct e; cbn [handle fst snd balance connection disconnect activeUsers];
    try lia;
    unfold userLogin, userSignup, addNewWord; repeat case_match; simpl; lia.
Qed.

Lemma run_cons (e : Inbound) (rest : list Inbound) (p : @Process U) :
  uncaught (snd p) = None ->
  snd (run (e :: rest) p) = snd (run rest (snd (handle e p))).
Proof.
  intros Hu. cbn [run]. rewrite Hu.
  destruct (handle e p) as [out p1]. cbn [snd].
  destruct (run rest p1) as [out' p2]. reflexivity.
Qed.

Lemma run_stopped (events : list Inbound) (p : @Process U) (x : exn) :
  uncaught (snd p) = Some x -> snd (run events p) = p.
Proof. intros Hu. destruct events; cbn [run]; [reflexivity | now rewrite Hu]. Qed.

(** Which states a sequence of events can reach, one handler at a time. *)
Lemma run_ind_state (P : @Process U -> Prop) (events : list Inbound) (p : @Process U) :
  P p -> (forall e q, P q -> P (snd (handle e q))) -> P (snd (run events p)).
Proof.
  intros Hp Hstep. revert p Hp.
  induction events as [|e rest IH]; intros p Hp; [exact Hp|].
  destruct (uncaught (snd p)) as [x|] eqn:Hu.
  - now rewrite (run_stopped _ p x Hu).
  - rewrite run_cons by exact Hu. apply IH, Hstep, Hp.
Qed.

(** X28.  Whatever clients send, in whatever order, the version token
    stays what it was, and no event makes the server start to listen.  A
    server that listens stops only through an exception that no handler
    catches (an admin's [addNewWord] with a [null] payload), which ends the
    process: when the events end without one, it listens as before. *)
Theorem run_keeps_version (events : list Inbound) (p : @Process U) :
  getQuizSetVersion (fst (snd (run events p))) = getQuizSetVersion (fst p) /\
  (listening (snd (snd (run events p))) = true -> listening (snd p) = true) /\
  (uncaught (snd (snd (run events p))) = None ->
   listening (snd (snd (run events p))) = listening (snd p)).
Proof.
  apply (run_ind_state
           (fun q => getQuizSetVersion (fst q) = getQuizSetVersion (fst p) /\
                     (listening (snd q) = true -> listening (snd p) = true) /\
                     (uncaught (snd q) = None ->
                      listening (snd q) = listening (snd p))));
    [now repeat split|].
  intros e q (Hv & Hon & Hsame). split; [|split].
  - destruct (handle_db e q) as [->|(c & w & m & ->)]; [exact Hv|].
    unfold getQuizSetVersion in *. now rewrite WordStore.insertNewWord_version.
  - destruct (handle_listening e q) as [->|[-> _]]; [exact Hon | discriminate].
  - intros Hu. destruct (handle_listening e q) as [->|[_ Hx]]; [|congruence].
    apply Hsame. now apply (handle_uncaught e q).
Qed.

(** X29.  Whatever clients send, the cache keeps mirroring the store: if
    every cached meaning is the stored one when the events begin (and every
    cached collection has its handle), it is so when they end. *)
Theorem run_keeps_mirror (events : list Inbound) (p : @Process U) :
  consistent (fst p) -> mirrored (fst p) ->
  consistent (fst (snd (run events p))) /\ mirrored (fst (snd (run events p))).
Proof.
  intros Hc Hm.
  apply (run_ind_state (fun q => consistent (fst q) /\ mirrored (fst q)));
    [now split|].
  intros e q [Hc' Hm'].
  destruct (handle_db e q) as [->|(c & w & m & ->)]; [now split|].
  split; [now apply consistent_insertNewWord | now apply mirrored_insertNewWord].
Qed.

(** X30.  When a sequence of events is handled to its end, [activeUsers]
    has grown by the number of connections less the number of
    disconnections; no other event moves it. *)
Theorem run_activeUsers (events : list Inbound) (p : @Process U) :
  uncaught (snd (snd (run events p))) = None ->
  activeUsers (snd (snd (run events p))) = (activeUsers (snd p) + balance events)%Z.
Proof.
  revert p. induction events as [|e rest IH]; intros p Hend; [cbn; lia|].
  destruct (uncaught (snd p)) as [x|] eqn:Hu.
  - rewrite (run_stopped _ p x Hu) in Hend. congruence.
  - rewrite run_cons in Hend |- * by exact Hu.
    rewrite (IH _ Hend), handle_activeUsers.
    destruct e; cbn [balance]; lia.
Qed.

End WithUserHandler.

(** A server that listens on the sample store, with one admin
    connection. *)
Lemma invalid_mail_refused_witness :
  userSignup (Some (<["password" := JString "p"]> ∅))
    (boot sampleStore (mkDesk [] false)) =
  ([signupUnsuccessful "Invalid UserMail"], boot sampleStore (mkDesk [] false)).
Proof.
  apply (invalid_mail_refused "socket-1" (Some (<["password" := JString "p"]> ∅))
           (boot sampleStore (mkDesk [] false))).
  vm_compute. reflexivity.
Defined.

Lemma userSignup_dropped_witness :
  userSignup (Some (<["userMail" := JString "a@b.com"]> (<["password" := JString "p"]> ∅)))
    (boot sampleStore (mkDesk [] false)) =
  ([], boot sampleStore (mkDesk [] false)).
Proof.
  apply (userSignup_dropped _ (boot sampleStore (mkDesk [] false)) "a@b.com");
    vm_compute; reflexivity.
Defined.

Lemma addNewWord_dropped_witness :
  addNewWord "socket-0"
    (Some (<["collectionName" := JString "animals"]> (<["word" := JOther "42"]>
             (<["meaning" := JString "a number"]> ∅))))
    (opened sampleStore, mkServer (mkDesk ["socket-0"] false) 1 true [] None) =
  ([], (opened sampleStore, mkServer (mkDesk ["socket-0"] false) 1 true [] None)).
Proof.
  apply (addNewWord_dropped "socket-0" _
           (opened sampleStore, mkServer (mkDesk ["socket-0"] false) 1 true [] None)).
  vm_compute. reflexivity.
Defined.

Lemma addNewWord_then_sendQuizSet_witness :
  exists snapshot,
    fst (sendQuizSet
           (snd (addNewWord "socket-0"
                   (Some (<["collectionName" := JString "animals"]>
                            (<["word" := JString "cat"]>
                               (<["meaning" := JString "feline"]> ∅))))
                   (opened sampleStore,
                    mkServer (mkDesk ["socket-0"] false) 1 true [] None)))) =
      [latestQuizSet "1.2.3" snapshot] /\
    snapshot !! "animals" ≫= (.!! "cat") = Some "neko / feline".
Proof.
  apply (addNewWord_then_sendQuizSet "socket-0"
           (Some (<["collectionName" := JString "animals"]>
                    (<["word" := JString "cat"]> (<["meaning" := JString "feline"]> ∅))))
           (opened sampleStore, mkServer (mkDesk ["socket-0"] false) 1 true [] None)
           (mkInserted "animals" "cat" "neko / feline")).
  vm_compute. reflexivity.
Defined.

Lemma run_keeps_mirror_witness :
  mirrored
    (fst (snd (run
       [on_connection "socket-0";
        on_addNewWord "socket-0"
          (Some (<["collectionName" := JString "animals"]>
                   (<["word" := JString "cat"]> (<["meaning" := JString "feline"]> ∅))));
        on_sendQuizSet "socket-0"]
       (opened sampleStore, mkServer (mkDesk ["socket-0"] false) 0 true [] None)))).
Proof.
  destruct sampleStore_invariants as [Hc Hm].
  apply (run_keeps_mirror _
           (opened sampleStore, mkServer (mkDesk ["socket-0"] false) 0 true [] None)
           Hc Hm).
Defined.

Lemma run_activeUsers_witness :
  activeUsers
    (snd (snd (run
       [on_connection "socket-0"; on_connection "socket-1";
        on_userLogin "socket-1" None; on_disconnect "socket-0"]
       (boot sampleStore (mkDesk [] false))))) = 1%Z.
Proof.
  apply (run_activeUsers
           [on_connection "socket-0"; on_connection "socket-1";
            on_userLogin "socket-1" None; on_disconnect "socket-0"]
           (boot sampleStore (mkDesk [] false))).
  vm_compute. reflexivity.
Defined.

End SocketFacts.
